(** * A poll()-based TCP connection multiplexer and its client handlers

    Shallow embedding of [poll_tcp_server.cpp]: the [TcpServer] class (registry
    of [pollfd] records, the readiness loop [run], the two staging sets and the
    commit functions [close_clients] / [add_new_clients]), the handler
    interface [IClientHandler] and its two implementations [EchoHandler] and
    [BroadCastChatHandler], and [main].

    The operating system is an explicit environment: every system call the
    code makes ([socket], [bind], [listen], [poll], [accept], [recv],
    [getsockopt]) takes its result from a record of answers, and everything
    the program does that is visible from outside (system calls, handler
    callbacks, writes to the standard streams) is appended to a trace. *)

From Stdlib Require Import Ascii String.
From stdpp Require Import base numbers list strings gmap pretty.
From Equations Require Import Equations.

Local Open Scope Z_scope.

(** ** Characters and strings *)

Definition CR : ascii := "013"%char.
Definition LF : ascii := "010"%char.

(** [std::endl] and the escape [\n] inside the source's string literals. *)
Definition endl : string := String LF EmptyString.

(** [s.erase(std::remove(s.begin(), s.end(), c), s.end())]: every occurrence
    of [c] is dropped, the other characters keep their order. *)
Fixpoint erase_remove (c : ascii) (s : string) : string :=
  match s with
  | EmptyString => EmptyString
  | String a s' =>
      if Ascii.eqb a c then erase_remove c s' else String a (erase_remove c s')
  end.

(** [std::string msg(data, len)]: the first [len] bytes found at [data]. *)
Definition string_of_span (data : string) (len : Z) : string :=
  substring 0 (Z.to_nat len) data.

(** [std::to_string(int)] and [operator<<(int)]: signed decimal. *)
Definition to_string (n : Z) : string := pretty n.

(** ** Flags of <sys/poll.h> (Linux values) *)

Definition POLLIN   : Z := 0x001.
Definition POLLOUT  : Z := 0x004.
Definition POLLERR  : Z := 0x008.
Definition POLLHUP  : Z := 0x010.
Definition POLLNVAL : Z := 0x020.

(** The C condition [revents & FLAG]: true when the conjunction is not zero. *)
Definition has_flag (revents flag : Z) : bool :=
  negb (Z.land revents flag =? 0).

(** [struct pollfd]. *)
Record pollfd : Type := Pollfd { fd : Z; events : Z; revents : Z }.

#[export] Instance pollfd_eq_dec : EqDecision pollfd.
Proof. solve_decision. Defined.

(** ** The handler interface *)

(** What a handler does to the outside world: [send(fd, buf, len, 0)] with
    the bytes sent, and text written to [std::cout]. *)
Inductive output : Type :=
| Send (to : Z) (bytes : string)
| Print (text : string).

#[export] Instance output_eq_dec : EqDecision output.
Proof. solve_decision. Defined.

(** [class IClientHandler]: three pure virtual callbacks.  A callback takes
    the handler object and gives back the updated object with what it did. *)
Class IClientHandler (H : Type) : Type := {
  on_client_connect : Z → H → H * list output;
  on_client_data : Z → string → Z → H → H * list output;
  on_client_disconnect : Z → H → H * list output
}.

(** ** EchoHandler *)

Module EchoHandler.

Definition t : Type := unit.

Definition on_client_data (client_fd : Z) (data : string) (len : Z) (h : t)
  : t * list output :=
  let msg := string_of_span data len in
  (h, [Print ("Client " +:+ to_string client_fd +:+ ": " +:+ msg);
       Send client_fd (string_of_span data len)]).

Definition on_client_connect (client_fd : Z) (h : t) : t * list output :=
  (h, [Print ("Client connected: FD = " +:+ to_string client_fd +:+ endl)]).

Definition on_client_disconnect (client_fd : Z) (h : t) : t * list output :=
  (h, [Print ("Client disconnected: FD = " +:+ to_string client_fd +:+ endl)]).

#[global] Instance handler : IClientHandler t :=
  Build_IClientHandler t on_client_connect on_client_data on_client_disconnect.

End EchoHandler.

(** ** BroadCastChatHandler *)

Module BroadCastChatHandler.

(** The members [clients] and [nick_names].  The mutex is taken for the
    whole of each callback and released at its end; with the single thread
    of [run] it never blocks and is left out. *)
Record t : Type := Handler {
  clients : gset Z;
  nick_names : gmap Z string
}.

(** [make_shared<BroadCastChatHandler>()]. *)
Definition make : t := {| clients := ∅; nick_names := ∅ |}.

(** The loop of [broadcast] over a given iteration of the set. *)
Fixpoint broadcast_over (order : list Z) (sender_fd : Z) (msg : string)
  : list output :=
  match order with
  | [] => []
  | fd :: rest =>
      if decide (fd ≠ sender_fd)
      then Send fd msg :: broadcast_over rest sender_fd msg
      else broadcast_over rest sender_fd msg
  end.

(** [broadcast]: [clients] is an unordered set; [elements] fixes one
    iteration order, which no statement below depends on. *)
Definition broadcast (h : t) (sender_fd : Z) (msg : string) : list output :=
  broadcast_over (elements (clients h)) sender_fd msg.

Definition on_client_connect (client_fd : Z) (h : t) : t * list output :=
  let h := {| clients := {[client_fd]} ∪ clients h;
              nick_names := nick_names h |} in
  let msg := " Enter your nickname: " in
  (h, [Send client_fd msg]).

Definition on_client_data (client_fd : Z) (data : string) (len : Z) (h : t)
  : t * list output :=
  let msg := string_of_span data len in
  let msg := erase_remove CR msg in
  let msg := erase_remove LF msg in
  match nick_names h !! client_fd with
  | None =>
      let h := {| clients := clients h;
                  nick_names := <[client_fd := msg]> (nick_names h) |} in
      let join_msg := msg +:+ " joined the chat" +:+ endl in
      (h, broadcast h client_fd join_msg ++ [Print join_msg])
  | Some nick =>
      let full_msg := nick +:+ ": " +:+ msg +:+ endl in
      (h, broadcast h client_fd full_msg ++ [Print full_msg])
  end.

Definition on_client_disconnect (client_fd : Z) (h : t) : t * list output :=
  let name :=
    match nick_names h !! client_fd with
    | Some nick => nick
    | None => "Client " +:+ to_string client_fd
    end in
  let h := {| clients := clients h ∖ {[client_fd]};
              nick_names := delete client_fd (nick_names h) |} in
  let msg := name +:+ " left the chat" +:+ endl in
  (h, broadcast h client_fd msg ++ [Print msg]).

#[global] Instance handler : IClientHandler t :=
  Build_IClientHandler t on_client_connect on_client_data on_client_disconnect.

End BroadCastChatHandler.


(** ** The server's view of the outside world *)

(** Everything observable that the server does, in program order. *)
Inductive event : Type :=
| SysSocket (ret : Z)
| SysBind (sock port16 ret : Z)
| SysListen (sock ret : Z)
| SysPoll (nfds : nat) (ret : Z)
| SysGetsockopt (sock ret : Z)
| SysAccept (sock ret : Z)
| SysRecv (sock nb : Z)
| SysClose (sock : Z)
| Perror (prefix : string)
| Cerr (text : string)
| Cout (text : string)
| OnConnect (client_fd : Z)
| OnData (client_fd : Z) (data : string) (len : Z)
| OnDisconnect (client_fd : Z)
| ByHandler (o : output)
| NullHandlerCall.

#[export] Instance event_eq_dec : EqDecision event.
Proof. solve_decision. Defined.

(** Answers of the system calls of the constructor. *)
Record SetupEnv : Type := {
  socket_ret : Z;
  bind_ret : Z;
  listen_ret : Z
}.

(** Answers of the system calls of one iteration of [run].  An iteration
    visits each index of [fds] once and makes there at most one [getsockopt]
    and at most one of [accept] and [recv], so the answers are given by the
    index visited. *)
Record PassEnv : Type := {
  poll_ret : Z;
  poll_revents : nat → Z;
  getsockopt_ret : nat → Z * Z;
  accept_ret : nat → Z;
  recv_ret : nat → Z * string
}.

(** [std::runtime_error]. *)
Inductive exn : Type := runtime_error (what : string).

(** A value together with the proof that it is the value of the expression
    inspected; lets a loop defined by well-founded recursion refer to the
    result of the call it has just made. *)
Definition inspect {A : Type} (a : A) : {b : A | a = b} := exist _ a eq_refl.

(** ** TcpServer *)

(** The data members.  [pHandler] is a shared pointer and may be null. *)
Record TcpServer (H : Type) : Type := Server {
  server_fd : Z;
  port : Z;
  pHandler : option H;
  fds : list pollfd;
  new_clients : gset Z;
  remove_clients : gset Z
}.
Arguments Server {H}.
Arguments server_fd {H}.
Arguments port {H}.
Arguments pHandler {H}.
Arguments fds {H}.
Arguments new_clients {H}.
Arguments remove_clients {H}.

Section Server.
Context {H : Type} `{IClientHandler H}.

Definition set_server_fd (v : Z) (s : TcpServer H) : TcpServer H :=
  Server v (port s) (pHandler s) (fds s) (new_clients s) (remove_clients s).
Definition set_pHandler (v : option H) (s : TcpServer H) : TcpServer H :=
  Server (server_fd s) (port s) v (fds s) (new_clients s) (remove_clients s).
Definition set_fds (v : list pollfd) (s : TcpServer H) : TcpServer H :=
  Server (server_fd s) (port s) (pHandler s) v (new_clients s) (remove_clients s).
Definition set_new_clients (v : gset Z) (s : TcpServer H) : TcpServer H :=
  Server (server_fd s) (port s) (pHandler s) (fds s) v (remove_clients s).
Definition set_remove_clients (v : gset Z) (s : TcpServer H) : TcpServer H :=
  Server (server_fd s) (port s) (pHandler s) (fds s) (new_clients s) v.

(** A member function: from the object to its result, the object after the
    call and what the call did. *)
Definition M (A : Type) : Type := TcpServer H → A * TcpServer H * list event.

Definition ret {A} (a : A) : M A := λ s, (a, s, []).
Definition bind {A B} (m : M A) (k : A → M B) : M B := λ s,
  let r1 := m s in
  let r2 := k r1.1.1 r1.1.2 in
  (r2.1.1, r2.1.2, r1.2 ++ r2.2).
Definition this : M (TcpServer H) := λ s, (s, s, []).
Definition assign (f : TcpServer H → TcpServer H) : M unit := λ s, (tt, f s, []).
Definition emit (e : event) : M unit := λ s, (tt, s, [e]).
Definition when (b : bool) (m : M unit) : M unit := if b then m else ret tt.

Notation "'let!' x := m 'in' k" := (bind m (λ x, k))
  (at level 10, x name, m at level 100, k at level 200).
Notation "m >> k" := (bind m (λ _, k))
  (at level 90, right associativity).

(** [pHandler->callback(...)]: the call itself is recorded, then what the
    handler does.  Through a null pointer the call has no defined behaviour,
    which the trace records as [NullHandlerCall]. *)
Definition call (e : event) (callback : H → H * list output) : M unit := λ s,
  match pHandler s with
  | None => (tt, s, [e; NullHandlerCall])
  | Some h =>
      let r := callback h in
      (tt, set_pHandler (Some r.1) s, e :: (ByHandler <$> r.2))
  end.

(** [poll(fds.data(), fds.size(), -1)]: on success the kernel has written
    the [revents] of every entry. *)
Definition poll (env : PassEnv) : M Z :=
  let! s := this in
  emit (SysPoll (length (fds s)) (poll_ret env)) >>
  when (0 <=? poll_ret env)
    (assign (set_fds (imap (λ i p, Pollfd (fd p) (events p) (poll_revents env i))
                           (fds s)))) >>
  ret (poll_ret env).

Definition accept_new_client (env : PassEnv) (i : nat) : M Z :=
  let! s := this in
  let client_fd := accept_ret env i in
  emit (SysAccept (server_fd s) client_fd) >>
  if client_fd <? 0 then
    emit (Perror "accept") >> ret (-1)
  else
    call (OnConnect client_fd) (on_client_connect client_fd) >>
    ret client_fd.

Definition handle_existing_client_read (env : PassEnv) (i : nat) (client_fd : Z)
  : M Z :=
  let buffer := (recv_ret env i).2 in
  let nb := (recv_ret env i).1 in
  emit (SysRecv client_fd nb) >>
  if nb <=? 0 then
    ret (-1)
  else
    call (OnData client_fd buffer nb) (on_client_data client_fd buffer nb) >>
    ret 0.

Definition handle_existing_client_write (client_fd : Z) : M unit :=
  emit (Cout ("FD " +:+ to_string client_fd +:+ " is ready to write" +:+ endl)).

(** The body of the [for] loop of [run] for the entry [pfd] at index [i].
    [pfd] is a reference into [fds]; nothing called here assigns to [fds], so
    the entry is the same at each of its uses. *)
Definition dispatch_entry (env : PassEnv) (i : nat) (pfd : pollfd) : M unit :=
  when (has_flag (revents pfd) POLLNVAL)
    (emit (Cerr ("Invalid socket fd" +:+ endl))) >>
  when (has_flag (revents pfd) POLLERR)
    (emit (SysGetsockopt (fd pfd) (getsockopt_ret env i).1) >>
     if (getsockopt_ret env i).1 <? 0 then
       emit (Cerr "Get socket option for failed")
     else
       emit (Cerr ("Socket error: " +:+ to_string (getsockopt_ret env i).2 +:+ endl))) >>
  when (has_flag (revents pfd) POLLHUP)
    (emit (Cout ("peer hang up" +:+ endl))) >>
  when (has_flag (revents pfd) POLLIN)
    (let! s := this in
     if decide (fd pfd = server_fd s) then
       let! new_fd := accept_new_client env i in
       when (0 <=? new_fd)
         (assign (λ s, set_new_clients ({[new_fd]} ∪ new_clients s) s))
     else
       let! r := handle_existing_client_read env i (fd pfd) in
       when (r <? 0)
         (assign (λ s, set_remove_clients ({[fd pfd]} ∪ remove_clients s) s))) >>
  when (has_flag (revents pfd) POLLOUT)
    (handle_existing_client_write (fd pfd)).

(** [pollfd& pfd = fds[i]; ...] *)
Definition dispatch (env : PassEnv) (i : nat) : M unit := λ s,
  match fds s !! i with
  | Some pfd => dispatch_entry env i pfd s
  | None => ret tt s
  end.

(** Nothing in the body of the scan assigns to [fds]; the loops below
    terminate for that reason. *)
Lemma call_fds e callback s : fds (call e callback s).1.2 = fds s.
Proof. unfold call. by destruct (pHandler s). Qed.

Lemma dispatch_entry_fds env i pfd s :
  fds (dispatch_entry env i pfd s).1.2 = fds s.
Proof.
  unfold dispatch_entry, accept_new_client, handle_existing_client_read,
    handle_existing_client_write, bind, when, this, emit, assign, ret.
  repeat (case_match; simpl; rewrite ?call_fds); done.
Qed.

Lemma dispatch_fds env i s : fds (dispatch env i s).1.2 = fds s.
Proof.
  unfold dispatch. destruct (fds s !! i); [apply dispatch_entry_fds | done].
Qed.

(** [for(size_t i = 0; i < fds.size(); ++i) { ... }], entered at index [i].
    The bound is read from the object at every iteration. *)
Equations? scan_from (env : PassEnv) (i : nat) (s : TcpServer H)
  : unit * TcpServer H * list event by wf (length (fds s) - i)%nat lt :=
  scan_from env i s with decide (i < length (fds s))%nat := {
    | left _ with inspect (dispatch env i s) := {
        | exist _ r1 Hr1 =>
            let r2 := scan_from env (S i) r1.1.2 in
            (tt, r2.1.2, r1.2 ++ r2.2) }
    | right _ => (tt, s, []) }.
Proof. rewrite dispatch_fds. lia. Qed.

(** The body of the loop of [close_clients] when the entry [e] under the
    iterator is found in [remove_clients]. *)
Definition close_found (it : nat) (e : pollfd) : M unit :=
  when (negb (has_flag (revents e) POLLNVAL)) (emit (SysClose (fd e))) >>
  call (OnDisconnect (fd e)) (on_client_disconnect (fd e)) >>
  assign (λ s, set_fds (delete it (fds s)) s).

Lemma close_found_fds it e s :
  fds (close_found it e s).1.2 = delete it (fds s).
Proof.
  unfold close_found, bind, when, emit, assign, ret.
  case_match; simpl; by rewrite call_fds.
Qed.

(** [for(auto it = fds.begin(); it != fds.end();) { ... }] with the iterator
    at position [it]: an erased entry leaves the iterator in place, a kept
    entry advances it. *)
Equations? close_clients_from (it : nat) (s : TcpServer H)
  : unit * TcpServer H * list event by wf (length (fds s) - it)%nat lt :=
  close_clients_from it s with inspect (fds s !! it) := {
    | exist _ (Some e) Hit with decide (fd e ∈ remove_clients s) := {
        | left _ with inspect (close_found it e s) := {
            | exist _ r1 Hr1 =>
                let r2 := close_clients_from it r1.1.2 in
                (tt, r2.1.2, r1.2 ++ r2.2) }
        | right _ => close_clients_from (S it) s }
    | exist _ None Hit => (tt, s, []) }.
Proof.
  - lazymatch goal with
    | |- (length ?l - _ < _)%nat => change l with (fds (close_found it e s).1.2)
    end.
    rewrite close_found_fds. apply lookup_lt_Some in Hit.
    rewrite length_delete; [lia | by apply lookup_lt_is_Some_2].
  - apply lookup_lt_Some in Hit. lia.
Qed.

Definition close_clients : M unit := close_clients_from 0.

(** The loop of [add_new_clients] over a given iteration of the set. *)
Fixpoint add_new_clients_over (order : list Z) : M unit :=
  match order with
  | [] => ret tt
  | fd :: rest =>
      assign (λ s, set_fds (fds s ++ [Pollfd fd POLLIN 0]) s) >>
      add_new_clients_over rest
  end.

(** [new_clients] is an unordered set; [elements] fixes one iteration
    order. *)
Definition add_new_clients : M unit :=
  let! s := this in add_new_clients_over (elements (new_clients s)).

(** One iteration of the [while] loop of [run] after a successful [poll]. *)
Definition pass (env : PassEnv) : M unit :=
  assign (set_remove_clients ∅) >>
  assign (set_new_clients ∅) >>
  scan_from env 0 >>
  close_clients >>
  add_new_clients.

(** How a call of [run] on a finite script of system-call answers ends:
    it has returned, or the script is used up and [run] is waiting in
    [poll]. *)
Inductive status : Type := Returned | Waiting.

(** [run]: each element of the script answers one iteration. *)
Fixpoint run (script : list PassEnv) : M status :=
  match script with
  | [] => ret Waiting
  | env :: rest =>
      let! polled_fds := poll env in
      if polled_fds <? 0 then
        emit (Perror "nothing to poll") >>
        let! s := this in
        emit (SysClose (server_fd s)) >>
        ret Returned
      else
        pass env >> run rest
  end.

(** [setup_socket]; the result is the exception thrown, if any.  [htons]
    takes the port as a 16-bit value. *)
Definition setup_socket (env : SetupEnv) : M (option exn) :=
  emit (SysSocket (socket_ret env)) >>
  assign (set_server_fd (socket_ret env)) >>
  let! s := this in
  if server_fd s <? 0 then
    ret (Some (runtime_error "Socket Creation failed"))
  else
    emit (SysBind (server_fd s) (port s `mod` 65536) (bind_ret env)) >>
    if bind_ret env <? 0 then
      ret (Some (runtime_error "Socket binding failed"))
    else
      emit (SysListen (server_fd s) (listen_ret env)) >>
      if listen_ret env <? 0 then
        ret (Some (runtime_error "Socket listening failed"))
      else
        assign (λ s, set_fds (fds s ++ [Pollfd (server_fd s) POLLIN 0]) s) >>
        emit (Cout ("Tcp Server is ready for Listen on port "
                    +:+ to_string (port s) +:+ endl)) >>
        ret None.

(** [TcpServer::TcpServer]: the member initialisers, the null check, then
    [setup_socket].  The result is the exception thrown or the object
    constructed. *)
Definition TcpServer_ctor (env : SetupEnv) (port : Z) (p_handler : option H)
  : (exn + TcpServer H) * list event :=
  let s := Server (-1) port p_handler [] ∅ ∅ in
  match p_handler with
  | None => (inl (runtime_error "client handle can not be null"), [])
  | Some _ =>
      let r := setup_socket env s in
      match r.1.1 with
      | Some e => (inl e, r.2)
      | None => (inr r.1.2, r.2)
      end
  end.

(** [TcpServer::~TcpServer]. *)
Definition TcpServer_dtor : M unit := λ s,
  (tt, s, SysClose (server_fd s) :: ((λ e, SysClose (fd e)) <$> fds s)).

(** The scan as a recursion on the entries still to visit, [i] being the
    index of the first of them. *)
Fixpoint scan_list (env : PassEnv) (i : nat) (l : list pollfd) : M unit :=
  match l with
  | [] => ret tt
  | pfd :: rest => dispatch_entry env i pfd >> scan_list env (S i) rest
  end.

(** The loop of [close_clients] as a recursion on the entries from the
    iterator on. *)
Fixpoint close_list (it : nat) (l : list pollfd) : M unit :=
  match l with
  | [] => ret tt
  | e :: rest =>
      let! s := this in
      if decide (fd e ∈ remove_clients s) then
        close_found it e >> close_list it rest
      else close_list (S it) rest
  end.

End Server.


(** ** main *)

Definition EXIT_FAILURE : Z := 1.

(** [main]: the exit status, or [None] while [run] is still waiting in
    [poll] at the end of the script. *)
Definition main (senv : SetupEnv) (script : list PassEnv)
  : option Z * list event :=
  let p_handler := Some BroadCastChatHandler.make in
  match TcpServer_ctor senv 9000 p_handler with
  | (inl e, t) =>
      let 'runtime_error what := e in
      (Some EXIT_FAILURE, t ++ [Cerr ("Server error: " +:+ what +:+ endl)])
  | (inr server, t) =>
      let r := run script server in
      match r.1.1 with
      | Returned => (Some 0, t ++ r.2 ++ (TcpServer_dtor r.1.2).2)
      | Waiting => (None, t ++ r.2)
      end
  end.

(** ** The claimed reading of the chat handler's input, for comparison *)

Definition is_terminator (a : ascii) : bool := Ascii.eqb a CR || Ascii.eqb a LF.

(** Stripping the line terminators at the end of a text, and only those. *)
Fixpoint strip_trailing_terminators (s : string) : string :=
  match s with
  | EmptyString => EmptyString
  | String a s' =>
      match strip_trailing_terminators s' with
      | EmptyString => if is_terminator a then EmptyString else String a EmptyString
      | rest => String a rest
      end
  end.

(** [on_client_data] as it would be if it stripped trailing terminators. *)
Definition on_client_data_stripping_trailing
  (client_fd : Z) (data : string) (len : Z) (h : BroadCastChatHandler.t)
  : BroadCastChatHandler.t * list output :=
  let msg := strip_trailing_terminators (string_of_span data len) in
  match BroadCastChatHandler.nick_names h !! client_fd with
  | None =>
      let h := BroadCastChatHandler.Handler (BroadCastChatHandler.clients h)
                 (<[client_fd := msg]> (BroadCastChatHandler.nick_names h)) in
      let join_msg := msg +:+ " joined the chat" +:+ endl in
      (h, BroadCastChatHandler.broadcast h client_fd join_msg ++ [Print join_msg])
  | Some nick =>
      let full_msg := nick +:+ ": " +:+ msg +:+ endl in
      (h, BroadCastChatHandler.broadcast h client_fd full_msg ++ [Print full_msg])
  end.

(** ** Summaries of an iteration, for the statements below *)

(** The calls made through [pHandler], with the marker of a call through a
    null pointer. *)
Definition is_call (e : event) : bool :=
  match e with
  | OnConnect _ | OnData _ _ _ | OnDisconnect _ | NullHandlerCall => true
  | _ => false
  end.

Definition calls (tr : list event) : list event := filter is_call tr.

(** What goes on between the server and the handler: the calls through
    [pHandler] and what the handler does in them. *)
Definition is_act (e : event) : bool :=
  match e with
  | OnConnect _ | OnData _ _ _ | OnDisconnect _ | NullHandlerCall
  | ByHandler _ => true
  | _ => false
  end.

Definition acts (tr : list event) : list event := filter is_act tr.

(** The calls of [on_client_data]. *)
Definition is_data (e : event) : bool :=
  match e with OnData _ _ _ => true | _ => false end.

(** How many times the event [e] occurs in a trace. *)
Definition count_event (e : event) (tr : list event) : nat :=
  length (filter (λ x, x = e) tr).

Section Summaries.
Context {H : Type} `{IClientHandler H}.
Implicit Types (s : TcpServer H) (env : PassEnv) (pfd : pollfd).
Implicit Types (t : list event).

Definition is_listener pfd (sfd : Z) : bool := bool_decide (fd pfd = sfd).

(** The entry leads to a successful [accept]. *)
Definition accepts env (i : nat) pfd (sfd : Z) : bool :=
  has_flag (revents pfd) POLLIN && is_listener pfd sfd && (0 <=? accept_ret env i).
(** The entry leads to a [recv] of at least one byte. *)
Definition reads env (i : nat) pfd (sfd : Z) : bool :=
  has_flag (revents pfd) POLLIN && negb (is_listener pfd sfd)
  && negb ((recv_ret env i).1 <=? 0).
(** The entry leads to a [recv] that returns zero or an error. *)
Definition drops env (i : nat) pfd (sfd : Z) : bool :=
  has_flag (revents pfd) POLLIN && negb (is_listener pfd sfd)
  && ((recv_ret env i).1 <=? 0).

(** What a call through [pHandler] adds to [calls] besides the call. *)
Definition null_call s : list event :=
  match pHandler s with Some _ => [] | None => [NullHandlerCall] end.

(** The calls of the scan for one entry, [nc] being what a call through
    [pHandler] adds when the pointer is null. *)
Definition entry_calls env (sfd : Z) (nc : list event) (i : nat) pfd
  : list event :=
  if accepts env i pfd sfd then OnConnect (accept_ret env i) :: nc
  else if reads env i pfd sfd
       then OnData (fd pfd) (recv_ret env i).2 (recv_ret env i).1 :: nc
       else [].

(** The calls of the scan of the entries [l], the first at index [i]. *)
Fixpoint scan_calls env (sfd : Z) (nc : list event) (i : nat) (l : list pollfd)
  : list event :=
  match l with
  | [] => []
  | pfd :: rest => entry_calls env sfd nc i pfd ++ scan_calls env sfd nc (S i) rest
  end.

(** The descriptors the scan of [l] stages for addition. *)
Fixpoint staged_add env (sfd : Z) (i : nat) (l : list pollfd) : gset Z :=
  match l with
  | [] => ∅
  | pfd :: rest =>
      (if accepts env i pfd sfd then {[accept_ret env i]} else ∅)
      ∪ staged_add env sfd (S i) rest
  end.

(** The descriptors the scan of [l] stages for removal. *)
Fixpoint staged_remove env (sfd : Z) (i : nat) (l : list pollfd) : gset Z :=
  match l with
  | [] => ∅
  | pfd :: rest =>
      (if drops env i pfd sfd then {[fd pfd]} else ∅)
      ∪ staged_remove env sfd (S i) rest
  end.

(** [s'] differs from [s] at most in the staging sets and in the state of
    the handler object. *)
Definition frame s s' : Prop :=
  server_fd s' = server_fd s ∧ port s' = port s ∧ fds s' = fds s
  ∧ null_call s' = null_call s.

(** [wp m s Q]: the call of [m] on [s] gives a result, a state and a trace
    that satisfy [Q]. *)
Definition wp {A} (m : M A) s (Q : A → TcpServer H → list event → Prop) : Prop :=
  Q (m s).1.1 (m s).1.2 (m s).2.


(** A step that leaves the object as it is and makes no call through
    [pHandler]: the reports to the standard streams and [getsockopt]. *)
Definition quiet {A} (m : M A) : Prop :=
  ∀ s, (m s).1.2 = s ∧ calls (m s).2 = [].

(** A step that leaves the object as it is and in which the handler takes
    no part. *)
Definition silent {A} (m : M A) : Prop :=
  ∀ s, (m s).1.2 = s ∧ acts (m s).2 = [].

End Summaries.

(** * Properties *)

(** ** Strings *)

Lemma erase_remove_filter c s :
  list_ascii_of_string (erase_remove c s)
  = filter (λ a, a ≠ c) (list_ascii_of_string s).
Proof.
  induction s as [|a s IH]; [done|]. simpl.
  destruct (Ascii.eqb_spec a c) as [->|Hne].
  - rewrite filter_cons_False; [done | by intros ?].
  - rewrite filter_cons_True by done. simpl. by rewrite IH.
Qed.

Lemma erase_terminators_filter s :
  list_ascii_of_string (erase_remove LF (erase_remove CR s))
  = filter (λ a, a ≠ CR ∧ a ≠ LF) (list_ascii_of_string s).
Proof.
  rewrite !erase_remove_filter. rewrite list_filter_filter.
  apply list_filter_iff. intros a. tauto.
Qed.

Lemma is_terminator_spec a : is_terminator a = true ↔ a = CR ∨ a = LF.
Proof.
  unfold is_terminator. rewrite orb_true_iff.
  by destruct (Ascii.eqb_spec a CR), (Ascii.eqb_spec a LF); intuition.
Qed.

(** A text made of terminators only is erased whole. *)
Lemma erase_terminators_all s :
  Forall (λ a, a = CR ∨ a = LF) (list_ascii_of_string s) →
  erase_remove LF (erase_remove CR s) = EmptyString.
Proof.
  induction s as [|a s IH]; [done|]. simpl. intros Hall.
  apply Forall_cons in Hall as [Ha Hall].
  destruct (Ascii.eqb_spec a CR) as [->|Hcr]; [by apply IH|].
  destruct Ha as [?| ->]; [done|]. simpl. by apply IH.
Qed.

(** Where the only terminators of a text are at its end, erasing them all
    is stripping the trailing ones. *)
Lemma erase_terminators_trailing s :
  Forall (λ a, a ≠ CR ∧ a ≠ LF)
         (list_ascii_of_string (strip_trailing_terminators s)) →
  erase_remove LF (erase_remove CR s) = strip_trailing_terminators s.
Proof.
  induction s as [|a s IH]; [done|]. simpl.
  destruct (strip_trailing_terminators s) as [|b rest] eqn:Hs.
  - specialize (IH ltac:(constructor)).
    destruct (is_terminator a) eqn:Ha.
    + intros _. apply is_terminator_spec in Ha as [-> | ->]; simpl; [done|].
      by rewrite IH.
    + intros _. assert (a ≠ CR ∧ a ≠ LF) as [Hcr Hlf].
      { split; intros ->; by vm_compute in Ha. }
      destruct (Ascii.eqb_spec a CR); [done|]. simpl.
      destruct (Ascii.eqb_spec a LF); [done|]. by rewrite IH.
  - intros Hall. simpl in Hall. apply Forall_cons in Hall as [[Hcr Hlf] Hall].
    destruct (Ascii.eqb_spec a CR); [done|]. simpl.
    destruct (Ascii.eqb_spec a LF); [done|]. by rewrite IH.
Qed.

(** ** The chat handler *)

Section Chat.
Import BroadCastChatHandler.

Lemma elem_of_broadcast_over order c m o :
  o ∈ broadcast_over order c m ↔ ∃ to, o = Send to m ∧ to ∈ order ∧ to ≠ c.
Proof.
  induction order as [|x order IH]; simpl.
  - split; [by intros ?%elem_of_nil | intros (? & _ & ?%elem_of_nil & _); done].
  - case_decide as Hx.
    + rewrite elem_of_cons, IH. split.
      * intros [-> | (to & -> & Hin & Hne)]; [exists x | exists to];
          by rewrite elem_of_cons; auto.
      * intros (to & -> & [-> | Hin]%elem_of_cons & Hne); [by left | right].
        by exists to.
    + subst x. rewrite IH. split.
      * intros (to & -> & Hin & Hne). exists to. by rewrite elem_of_cons; auto.
      * intros (to & -> & [-> | Hin]%elem_of_cons & Hne); [done|]. by exists to.
Qed.

Lemma NoDup_broadcast_over order c m :
  NoDup order → NoDup (broadcast_over order c m).
Proof.
  induction 1 as [|x order Hx Hnd IH]; simpl; [constructor|].
  case_decide; [|done]. constructor; [|done].
  rewrite elem_of_broadcast_over. intros (to & [= <-] & Hin & _). done.
Qed.

Lemma elem_of_broadcast h c m o :
  o ∈ broadcast h c m ↔ ∃ to, o = Send to m ∧ to ∈ clients h ∧ to ≠ c.
Proof.
  unfold broadcast. rewrite elem_of_broadcast_over.
  by setoid_rewrite elem_of_elements.
Qed.

(** C7: a fan-out of [m] from connection [c] writes [m] once to every member
    of [clients] other than [c], writes nothing else, and never writes to
    [c]; so do the three callbacks that fan out (join announcement and chat
    line in [on_client_data], departure in [on_client_disconnect]). *)
Theorem broadcast_reaches_all_but_sender (h : t) (c : Z) (m : string) :
  (∀ to bytes, Send to bytes ∈ broadcast h c m ↔ to ∈ clients h ∧ to ≠ c ∧ bytes = m)
  ∧ (∀ text, Print text ∉ broadcast h c m)
  ∧ NoDup (broadcast h c m)
  ∧ (∀ data len bytes, Send c bytes ∉ (on_client_data c data len h).2)
  ∧ (∀ bytes, Send c bytes ∉ (on_client_disconnect c h).2).
Proof.
  split_and!.
  - intros to bytes. rewrite elem_of_broadcast. split.
    + by intros (? & [= -> ->] & ? & ?).
    + intros (? & ? & ->). by exists to.
  - intros text (? & [=] & _)%elem_of_broadcast.
  - apply NoDup_broadcast_over, NoDup_elements.
  - intros data len bytes. unfold on_client_data.
    destruct (nick_names h !! c); simpl;
      rewrite elem_of_app, elem_of_broadcast, list_elem_of_singleton;
      by intros [(? & [= <- _] & _ & ?) | [=]].
  - intros bytes. unfold on_client_disconnect. simpl.
    rewrite elem_of_app, elem_of_broadcast, list_elem_of_singleton.
    by intros [(? & [= <- _] & _ & ?) | [=]].
Qed.

(** C6 as stated fails: a terminator inside the text is erased too.  With
    members 4 and 5, 5 named "al", the four bytes a LF b LF from 5 are fanned
    out as "al: ab" and not as "al: a LF b". *)
Lemma inner_terminator_is_erased :
  let h := Handler {[4; 5]} {[5 := "al"]} in
  let data := String "a" (String LF (String "b" (String LF EmptyString))) in
  (on_client_data 5 data 4 h).2
    = [Send 4 ("al: ab" +:+ endl); Print ("al: ab" +:+ endl)]
  ∧ (on_client_data 5 data 4 h).2
    ≠ (on_client_data_stripping_trailing 5 data 4 h).2.
Proof. split; [by vm_compute | vm_compute; intros [=]]. Qed.

(** C6, amended: [on_client_data] erases every CR and LF of the bytes
    received (which is stripping the trailing ones when there is none
    elsewhere).  From a connection without a name the text becomes its name,
    membership is unchanged, and the join announcement is sent to every other
    member and not to the sender; from a named connection the text is sent to
    every other member after the name and a colon, and the state is
    unchanged. *)
Theorem on_client_data_erases_terminators
  (h : t) (c : Z) (data : string) (len : Z) :
  let span := string_of_span data len in
  let msg := erase_remove LF (erase_remove CR span) in
  list_ascii_of_string msg
    = filter (λ a, a ≠ CR ∧ a ≠ LF) (list_ascii_of_string span)
  ∧ (Forall (λ a, a ≠ CR ∧ a ≠ LF)
       (list_ascii_of_string (strip_trailing_terminators span)) →
     msg = strip_trailing_terminators span)
  ∧ (nick_names h !! c = None →
     let r := on_client_data c data len h in
     let join_msg := msg +:+ " joined the chat" +:+ endl in
     nick_names r.1 = <[c := msg]> (nick_names h)
     ∧ clients r.1 = clients h
     ∧ (∀ to bytes,
          Send to bytes ∈ r.2 ↔ to ∈ clients h ∧ to ≠ c ∧ bytes = join_msg)
     ∧ (∀ text, Print text ∈ r.2 ↔ text = join_msg))
  ∧ (∀ nick, nick_names h !! c = Some nick →
     let r := on_client_data c data len h in
     let full_msg := nick +:+ ": " +:+ msg +:+ endl in
     r.1 = h
     ∧ (∀ to bytes,
          Send to bytes ∈ r.2 ↔ to ∈ clients h ∧ to ≠ c ∧ bytes = full_msg)
     ∧ (∀ text, Print text ∈ r.2 ↔ text = full_msg)).
Proof.
  intros span msg. split_and!.
  - apply erase_terminators_filter.
  - apply erase_terminators_trailing.
  - intros Hnone. unfold on_client_data. fold span. fold msg. rewrite Hnone.
    simpl. split_and!; [done | done | |].
    + intros to bytes.
      rewrite elem_of_app, elem_of_broadcast, list_elem_of_singleton. simpl.
      split; [by intros [(? & [= -> ->] & ? & ?) | [=]] |].
      intros (? & ? & ->). left. by exists to.
    + intros text.
      rewrite elem_of_app, elem_of_broadcast, list_elem_of_singleton.
      split; [by intros [(? & [=] & _) | [= ->]] | intros ->; by right].
  - intros nick Hnick. unfold on_client_data. fold span. fold msg. rewrite Hnick.
    simpl. split_and!; [done | |].
    + intros to bytes.
      rewrite elem_of_app, elem_of_broadcast, list_elem_of_singleton.
      split; [by intros [(? & [= -> ->] & ? & ?) | [=]] |].
      intros (? & ? & ->). left. by exists to.
    + intros text.
      rewrite elem_of_app, elem_of_broadcast, list_elem_of_singleton.
      split; [by intros [(? & [=] & _) | [= ->]] | intros ->; by right].
Qed.

Lemma on_client_data_erases_terminators_witness :
  let h := Handler {[4; 5]} {[4 := "al"]} in
  let data := String "b" (String "o" (String CR (String LF EmptyString))) in
  (nick_names (on_client_data 5 data 4 h).1 = <[5 := "bo"]> (nick_names h)
   ∧ Send 4 ("bo joined the chat" +:+ endl) ∈ (on_client_data 5 data 4 h).2)
  ∧ (on_client_data 4 data 4 h).1 = h.
Proof.
  intros h data.
  pose proof (on_client_data_erases_terminators h 5 data 4) as (_ & _ & Hjoin & _).
  pose proof (on_client_data_erases_terminators h 4 data 4) as (_ & _ & _ & Hline).
  specialize (Hjoin eq_refl) as (Hnames & _ & Hsend & _).
  specialize (Hline "al" eq_refl) as (Hstate & _).
  split; [split|].
  - exact Hnames.
  - apply Hsend. split; [|split]; [by vm_compute | lia | reflexivity].
  - exact Hstate.
Defined.

(** C10: a first message made of line terminators only gives the connection
    the empty name: the name map holds the empty string for it, the join
    announcement (with nothing before " joined the chat") is fanned out, and
    every later message from it is fanned out as a chat line after the empty
    name, with the state left as it is. *)
Theorem empty_display_name_accepted
  (h : t) (c : Z) (data : string) (len : Z) :
  nick_names h !! c = None →
  Forall (λ a, a = CR ∨ a = LF) (list_ascii_of_string (string_of_span data len)) →
  let r := on_client_data c data len h in
  let join_msg := " joined the chat" +:+ endl in
  nick_names r.1 !! c = Some EmptyString
  ∧ clients r.1 = clients h
  ∧ r.2 = broadcast h c join_msg ++ [Print join_msg]
  ∧ ∀ data' len',
      let msg := erase_remove LF (erase_remove CR (string_of_span data' len')) in
      let full_msg := ": " +:+ msg +:+ endl in
      on_client_data c data' len' r.1
      = (r.1, broadcast r.1 c full_msg ++ [Print full_msg]).
Proof.
  intros Hnone Hall r join_msg.
  assert (r = (Handler (clients h) (<[c := EmptyString]> (nick_names h)),
               broadcast h c join_msg ++ [Print join_msg])) as ->.
  { subst r. unfold on_client_data. rewrite Hnone.
    by rewrite (erase_terminators_all _ Hall). }
  simpl. split_and!; [apply lookup_insert_eq | done | done |].
  intros data' len'. unfold on_client_data. simpl.
  by rewrite lookup_insert_eq.
Qed.

Lemma empty_display_name_accepted_witness :
  let h := (on_client_connect 5 (Handler {[4]} {[4 := "al"]})).1 in
  let data := String CR (String LF EmptyString) in
  nick_names (on_client_data 5 data 2 h).1 !! 5 = Some EmptyString
  ∧ (on_client_data 5 "hi" 2 (on_client_data 5 data 2 h).1).2
    = [Send 4 (": hi" +:+ endl); Print (": hi" +:+ endl)].
Proof.
  intros h data.
  assert (nick_names h !! 5 = None) as Hnone by reflexivity.
  assert (Forall (λ a, a = CR ∨ a = LF)
            (list_ascii_of_string (string_of_span data 2))) as Hall.
  { vm_compute. repeat (constructor; [auto|]). constructor. }
  destruct (empty_display_name_accepted h 5 data 2 Hnone Hall)
    as (Hname & _ & _ & Hlater).
  split; [exact Hname|].
  rewrite (Hlater "hi" 2). reflexivity.
Defined.

End Chat.

(** ** The server *)

Section ServerFacts.
Context {H : Type} `{IClientHandler H}.
Implicit Types (s : TcpServer H) (env : PassEnv) (pfd : pollfd).
Implicit Types (t : list event).

Lemma wp_bind {A B} (m : M A) (k : A → M B) s Q :
  wp m s (λ a s1 t1, wp (k a) s1 (λ b s2 t2, Q b s2 (t1 ++ t2))) →
  wp (bind m k) s Q.
Proof. done. Qed.

Lemma wp_ret {A} (a : A) s Q : Q a s [] → wp (ret a) s Q.
Proof. done. Qed.

Lemma wp_this s Q : Q s s [] → wp this s Q.
Proof. done. Qed.

Lemma wp_emit e s Q : Q tt s [e] → wp (emit e) s Q.
Proof. done. Qed.

Lemma wp_assign f s Q : Q tt (f s) [] → wp (assign f) s Q.
Proof. done. Qed.

Lemma wp_when (b : bool) m s Q :
  (if b then wp m s Q else Q tt s []) → wp (when b m) s Q.
Proof. by destruct b. Qed.

Lemma wp_if {A} (b : bool) (m1 m2 : M A) s Q :
  (if b then wp m1 s Q else wp m2 s Q) → wp (if b then m1 else m2) s Q.
Proof. by destruct b. Qed.

Lemma wp_mono {A} (m : M A) s (Q Q' : A → TcpServer H → list event → Prop) :
  wp m s Q' → (∀ a s' t, Q' a s' t → Q a s' t) → wp m s Q.
Proof. unfold wp. auto. Qed.

Lemma calls_app t1 t2 : calls (t1 ++ t2) = calls t1 ++ calls t2.
Proof. apply filter_app. Qed.

Lemma calls_nil : calls [] = [].
Proof. done. Qed.

Lemma calls_cons e t :
  calls (e :: t) = (if is_call e then [e] else []) ++ calls t.
Proof. unfold calls. rewrite filter_cons. by destruct (is_call e). Qed.

Ltac calls_simpl :=
  repeat first [rewrite calls_app | rewrite calls_cons | rewrite calls_nil];
  cbn [is_call app]; rewrite ?app_nil_r.

Lemma calls_fmap_ByHandler (l : list output) : calls (ByHandler <$> l) = [].
Proof. by induction l. Qed.

Lemma elem_of_calls e t : is_call e = true → e ∈ t ↔ e ∈ calls t.
Proof.
  intros He. unfold calls. rewrite list_elem_of_filter, He.
  split; [by split | by intros [_ ?]].
Qed.

Lemma frame_refl s : frame s s.
Proof. done. Qed.

Lemma frame_trans s1 s2 s3 : frame s1 s2 → frame s2 s3 → frame s1 s3.
Proof. unfold frame. intros (-> & -> & -> & ->) (-> & -> & -> & ->). done. Qed.

(** [pHandler->callback(...)] *)
Lemma call_spec e cb s :
  is_call e = true →
  wp (call e cb) s (λ _ s' t,
    frame s s' ∧ new_clients s' = new_clients s
    ∧ remove_clients s' = remove_clients s ∧ calls t = e :: null_call s).
Proof.
  intros He. unfold wp, call.
  destruct (pHandler s) eqn:Hh; cbn [fst snd].
  - split_and!; [by unfold frame, null_call; cbn; rewrite Hh | done | done |].
    unfold calls, null_call. rewrite Hh, filter_cons_True by (by rewrite He).
    f_equal. apply calls_fmap_ByHandler.
  - split_and!; [done | done | done |].
    unfold calls, null_call. rewrite Hh, filter_cons_True by (by rewrite He).
    done.
Qed.

Lemma accept_new_client_spec env i s :
  wp (accept_new_client env i) s (λ v s' t,
    frame s s' ∧ new_clients s' = new_clients s
    ∧ remove_clients s' = remove_clients s
    ∧ v = (if accept_ret env i <? 0 then -1 else accept_ret env i)
    ∧ calls t = (if accept_ret env i <? 0 then []
                 else OnConnect (accept_ret env i) :: null_call s)).
Proof.
  unfold accept_new_client.
  apply wp_bind, wp_this, wp_bind, wp_emit, wp_if.
  destruct (accept_ret env i <? 0).
  - by apply wp_bind, wp_emit, wp_ret.
  - apply wp_bind. eapply wp_mono; [by apply call_spec|].
    intros _ s' t (? & ? & ? & Ht). apply wp_ret.
    calls_simpl. by rewrite Ht.
Qed.

Lemma handle_existing_client_read_spec env i client_fd s :
  wp (handle_existing_client_read env i client_fd) s (λ v s' t,
    frame s s' ∧ new_clients s' = new_clients s
    ∧ remove_clients s' = remove_clients s
    ∧ v = (if (recv_ret env i).1 <=? 0 then -1 else 0)
    ∧ calls t = (if (recv_ret env i).1 <=? 0 then []
                 else OnData client_fd (recv_ret env i).2 (recv_ret env i).1
                        :: null_call s)).
Proof.
  unfold handle_existing_client_read.
  apply wp_bind, wp_emit, wp_if.
  destruct ((recv_ret env i).1 <=? 0).
  - by apply wp_ret.
  - apply wp_bind. eapply wp_mono; [by apply call_spec|].
    intros _ s' t (? & ? & ? & Ht). apply wp_ret.
    calls_simpl. by rewrite Ht.
Qed.

Lemma quiet_ret {A} (a : A) : quiet (H:=H) (ret a).
Proof. done. Qed.

Lemma quiet_emit e : is_call e = false → quiet (H:=H) (emit e).
Proof. intros He s. split; [done|]. cbn. calls_simpl. by rewrite He. Qed.

Lemma quiet_bind {A B} (m : M A) (k : A → M B) :
  quiet (H:=H) m → (∀ a, quiet (k a)) → quiet (bind m k).
Proof.
  intros Hm Hk s. destruct (Hm s) as [Hs Ht]. unfold bind. cbn.
  rewrite Hs. destruct (Hk (m s).1.1 s) as [Hs' Ht']. split; [done|].
  by rewrite calls_app, Ht, Ht'.
Qed.

Lemma quiet_when (b : bool) m : quiet (H:=H) m → quiet (when b m).
Proof. destruct b; [done | intros _; apply quiet_ret]. Qed.

Lemma quiet_if {A} (b : bool) (m1 m2 : M A) :
  quiet (H:=H) m1 → quiet m2 → quiet (if b then m1 else m2).
Proof. by destruct b. Qed.

Lemma wp_quiet_bind {A B} (m : M A) (k : A → M B) s Q :
  quiet m →
  (∀ a, wp (k a) s (λ b s2 t2, ∀ t1, calls t1 = [] → Q b s2 (t1 ++ t2))) →
  wp (bind m k) s Q.
Proof.
  intros Hm Hk. destruct (Hm s) as [Hs Ht]. unfold wp, bind. cbn.
  rewrite Hs. by apply Hk.
Qed.

Lemma wp_bind_quiet {A B} (m : M A) (k : A → M B) s Q :
  (∀ a, quiet (k a)) →
  wp m s (λ a s1 t1, ∀ b t2, calls t2 = [] → Q b s1 (t1 ++ t2)) →
  wp (bind m k) s Q.
Proof.
  intros Hk Hm. unfold wp, bind. cbn.
  destruct (Hk (m s).1.1 (m s).1.2) as [Hs Ht]. rewrite Hs. by apply Hm.
Qed.

Ltac use_calls :=
  repeat match goal with Hc : calls _ = _ |- _ => rewrite Hc end;
  cbn [app]; rewrite ?app_nil_r; done.

Ltac quiet_tac :=
  repeat first
    [ apply quiet_when | apply quiet_if | apply quiet_ret
    | apply quiet_emit; reflexivity
    | apply quiet_bind; [|intros ?] ].

(** The body of the scan for one entry. *)
Lemma dispatch_entry_spec env i pfd s :
  wp (dispatch_entry env i pfd) s (λ _ s' t,
    frame s s'
    ∧ new_clients s' =
        (if accepts env i pfd (server_fd s) then {[accept_ret env i]} ∪ new_clients s
         else new_clients s)
    ∧ remove_clients s' =
        (if drops env i pfd (server_fd s) then {[fd pfd]} ∪ remove_clients s
         else remove_clients s)
    ∧ calls t = entry_calls env (server_fd s) (null_call s) i pfd).
Proof.
  unfold entry_calls, dispatch_entry, accepts, reads, drops, is_listener.
  do 3 (apply wp_quiet_bind; [quiet_tac | intros _]).
  apply wp_bind_quiet; [intros _; unfold handle_existing_client_write; quiet_tac|].
  apply wp_when. destruct (has_flag (revents pfd) POLLIN); cbn [andb].
  - apply wp_bind, wp_this.
    destruct (decide (fd pfd = server_fd s)) as [Hl|Hl].
    + rewrite (bool_decide_eq_true_2 _ Hl). cbn [andb negb].
      apply wp_bind. eapply wp_mono; [apply accept_new_client_spec|].
      intros v s' t (Hfr & Hnew & Hrm & -> & Ht). apply wp_when.
      destruct (Z.ltb_spec (accept_ret env i) 0);
        [ rewrite (proj2 (Z.leb_gt 0 (accept_ret env i))) by done
        | rewrite (proj2 (Z.leb_le 0 (accept_ret env i))) by done ].
      * cbn. intros. calls_simpl. split_and!; try done.
        use_calls.
      * apply wp_assign. intros. split_and!; try done.
        -- cbn. by rewrite Hnew.
        -- calls_simpl. use_calls.
    + rewrite (bool_decide_eq_false_2 _ Hl). cbn [andb negb].
      apply wp_bind. eapply wp_mono; [apply handle_existing_client_read_spec|].
      intros v s' t (Hfr & Hnew & Hrm & -> & Ht). apply wp_when.
      destruct ((recv_ret env i).1 <=? 0); cbn [negb].
      * change (-1 <? 0) with true. cbv iota. apply wp_assign. intros.
        split_and!; try done.
        -- cbn. by rewrite Hrm.
        -- calls_simpl. use_calls.
      * change (0 <? 0) with false. cbv iota. intros. split_and!; try done.
        calls_simpl. use_calls.
  - intros. split_and!; try done. calls_simpl. use_calls.
Qed.

(** *** The scan *)

Lemma scan_from_list env i s :
  scan_from env i s = scan_list env i (drop i (fds s)) s.
Proof.
  funelim (scan_from env i s).
  - rewrite drop_ge by lia. reflexivity.
  - destruct (lookup_lt_is_Some_2 (fds s) i) as [pfd Hpfd]; [done|].
    rewrite (drop_S _ _ _ Hpfd) at 1. cbn [scan_list].
    assert (dispatch env i s = dispatch_entry env i pfd s) as Hd.
    { unfold dispatch. by rewrite Hpfd. }
    match goal with IH : scan_from _ _ _ = scan_list _ _ _ _ |- _ => rewrite IH end.
    rewrite dispatch_fds, Hd. unfold bind.
    by destruct (scan_list _ _ _ _).1.1.
Qed.

Lemma scan_list_spec env l : ∀ i s,
  wp (scan_list env i l) s (λ _ s' t,
    frame s s'
    ∧ new_clients s' = staged_add env (server_fd s) i l ∪ new_clients s
    ∧ remove_clients s' = staged_remove env (server_fd s) i l ∪ remove_clients s
    ∧ calls t = scan_calls env (server_fd s) (null_call s) i l).
Proof.
  induction l as [|pfd l IH]; intros i s; cbn [scan_list].
  - apply wp_ret. split_and!; [done | set_solver | set_solver | done].
  - apply wp_bind. eapply wp_mono; [apply dispatch_entry_spec|].
    intros _ s1 t1 (Hfr & Hnew & Hrm & Ht1).
    eapply wp_mono; [apply IH|].
    intros _ s2 t2 (Hfr2 & Hnew2 & Hrm2 & Ht2).
    destruct Hfr as (Hsfd & Hport & Hfds & Hnc).
    rewrite Hsfd, Hnc in *.
    split_and!.
    + eapply frame_trans; [|done]. by split_and!.
    + rewrite Hnew2, Hnew. cbn [staged_add].
      destruct (accepts env i pfd (server_fd s)); set_solver.
    + rewrite Hrm2, Hrm. cbn [staged_remove].
      destruct (drops env i pfd (server_fd s)); set_solver.
    + by rewrite calls_app, Ht1, Ht2.
Qed.

Lemma elem_of_staged_add env sfd x l : ∀ i,
  x ∈ staged_add env sfd i l ↔
  ∃ j pfd, l !! j = Some pfd ∧ accepts env (i + j) pfd sfd = true
           ∧ x = accept_ret env (i + j)%nat.
Proof.
  induction l as [|pfd l IH]; intros i; cbn [staged_add].
  - split; [set_solver | by intros (? & ? & ? & _)].
  - rewrite elem_of_union, IH. split.
    + intros [Hx | (j & p & Hj & Ha & ->)].
      * destruct (accepts env i pfd sfd) eqn:Ha; [|set_solver].
        apply elem_of_singleton in Hx as ->.
        exists 0%nat, pfd. by rewrite Nat.add_0_r.
      * exists (S j), p. by rewrite <- Nat.add_succ_comm.
    + intros ([|j] & p & Hj & Ha & ->).
      * left. injection Hj as ->. rewrite Nat.add_0_r in *. rewrite Ha.
        set_solver.
      * right. exists j, p. by rewrite Nat.add_succ_comm.
Qed.

Lemma elem_of_staged_remove env sfd x l : ∀ i,
  x ∈ staged_remove env sfd i l ↔
  ∃ j pfd, l !! j = Some pfd ∧ drops env (i + j) pfd sfd = true ∧ x = fd pfd.
Proof.
  induction l as [|pfd l IH]; intros i; cbn [staged_remove].
  - split; [set_solver | by intros (? & ? & ? & _)].
  - rewrite elem_of_union, IH. split.
    + intros [Hx | (j & p & Hj & Ha & ->)].
      * destruct (drops env i pfd sfd) eqn:Ha; [|set_solver].
        apply elem_of_singleton in Hx as ->.
        exists 0%nat, pfd. by rewrite Nat.add_0_r.
      * exists (S j), p. by rewrite <- Nat.add_succ_comm.
    + intros ([|j] & p & Hj & Ha & ->).
      * left. injection Hj as ->. rewrite Nat.add_0_r in *. rewrite Ha.
        set_solver.
      * right. exists j, p. by rewrite Nat.add_succ_comm.
Qed.

Lemma elem_of_scan_calls env sfd nc e l : ∀ i,
  e ∈ scan_calls env sfd nc i l ↔
  ∃ j pfd, l !! j = Some pfd ∧ e ∈ entry_calls env sfd nc (i + j) pfd.
Proof.
  induction l as [|pfd l IH]; intros i; cbn [scan_calls].
  - split; [by intros ?%elem_of_nil | by intros (? & ? & ? & _)].
  - rewrite elem_of_app, IH. split.
    + intros [He | (j & p & Hj & He)].
      * exists 0%nat, pfd. by rewrite Nat.add_0_r.
      * exists (S j), p. by rewrite <- Nat.add_succ_comm.
    + intros ([|j] & p & Hj & He).
      * left. injection Hj as ->. by rewrite Nat.add_0_r in He.
      * right. exists j, p. by rewrite Nat.add_succ_comm.
Qed.

(** *** The commit *)

Lemma drop_delete_here {A} (l : list A) : ∀ i,
  drop i (delete i l) = drop (S i) l.
Proof. induction l as [|x l IH]; intros [|i]; cbn; [done | done | by destruct l | apply IH]. Qed.

Lemma take_delete_here {A} (l : list A) : ∀ i,
  take i (delete i l) = take i l.
Proof. induction l as [|x l IH]; intros [|i]; cbn; [done | done | done | by rewrite IH]. Qed.

Lemma close_from_list it s :
  close_clients_from it s = close_list it (drop it (fds s)) s.
Proof.
  funelim (close_clients_from it s).
  - pose proof (proj1 (lookup_ge_None _ _) Hit). rewrite drop_ge by lia.
    reflexivity.
  - rewrite (drop_S _ _ _ Hit). cbn [close_list]. unfold bind at 1, this.
    cbn [fst snd]. rewrite Heq.
    match goal with IH : close_clients_from _ _ = close_list _ _ _ |- _ =>
      rewrite IH end.
    by destruct (close_list _ _ _) as [[[] ?] ?].
  - rewrite (drop_S _ _ _ Hit). cbn [close_list]. unfold bind at 1, this.
    cbn [fst snd]. rewrite Heq.
    match goal with IH : close_clients_from _ _ = close_list _ _ _ |- _ =>
      rewrite IH end.
    rewrite close_found_fds, drop_delete_here. unfold bind. cbn [app].
    by destruct (close_list _ _ _).1.1.
Qed.

Lemma close_found_spec it e s :
  wp (close_found it e) s (λ _ s' t,
    server_fd s' = server_fd s ∧ port s' = port s
    ∧ null_call s' = null_call s
    ∧ new_clients s' = new_clients s ∧ remove_clients s' = remove_clients s
    ∧ fds s' = delete it (fds s)
    ∧ calls t = OnDisconnect (fd e) :: null_call s).
Proof.
  unfold close_found.
  apply wp_quiet_bind; [quiet_tac | intros _].
  apply wp_bind. eapply wp_mono; [by apply call_spec|].
  intros _ s' t ((? & ? & Hfds & ?) & ? & ? & Ht). apply wp_assign.
  intros t1 Ht1. cbn. rewrite Hfds. split_and!; try done.
  calls_simpl. use_calls.
Qed.

Lemma close_list_spec l : ∀ it s,
  drop it (fds s) = l →
  wp (close_list it l) s (λ _ s' t,
    server_fd s' = server_fd s ∧ port s' = port s
    ∧ null_call s' = null_call s
    ∧ new_clients s' = new_clients s ∧ remove_clients s' = remove_clients s
    ∧ fds s' = take it (fds s) ++ filter (λ e, fd e ∉ remove_clients s) l
    ∧ calls t = flat_map (λ e, OnDisconnect (fd e) :: null_call s)
                  (filter (λ e, fd e ∈ remove_clients s) l)).
Proof.
  induction l as [|e l IH]; intros it s Hl; cbn [close_list].
  - apply wp_ret. split_and!; try done.
    rewrite app_nil_r. rewrite <- (take_drop it (fds s)) at 1.
    by rewrite Hl, app_nil_r.
  - apply wp_bind, wp_this.
    assert (fds s !! it = Some e) as Hit.
    { rewrite <- (Nat.add_0_r it), <- lookup_drop, Hl. done. }
    destruct (decide (fd e ∈ remove_clients s)) as [Hin|Hout].
    + apply wp_bind. eapply wp_mono; [apply close_found_spec|].
      intros _ s1 t1 (Hsfd & Hport & Hnc & Hnew & Hrm & Hfds & Ht1).
      eapply wp_mono; [apply IH|].
      { rewrite Hfds, drop_delete_here. rewrite (drop_S _ _ _ Hit) in Hl.
        by injection Hl. }
      intros _ s2 t2 (Hsfd2 & Hport2 & Hnc2 & Hnew2 & Hrm2 & Hfds2 & Ht2).
      rewrite Hrm, Hnc, Hfds, take_delete_here in *.
      rewrite filter_cons_False by (intros ?; done).
      rewrite (filter_cons_True (λ e, fd e ∈ remove_clients s)) by done.
      cbn [flat_map app]. split_and!; try congruence.
      calls_simpl. by rewrite Ht1, Ht2.
    + eapply wp_mono; [apply IH|].
      { rewrite (drop_S _ _ _ Hit) in Hl. by injection Hl. }
      intros _ s2 t2 (Hsfd2 & Hport2 & Hnc2 & Hnew2 & Hrm2 & Hfds2 & Ht2).
      rewrite filter_cons_True by done.
      rewrite (filter_cons_False (λ e, fd e ∈ remove_clients s)) by done.
      split_and!; try done.
      rewrite Hfds2, (take_S_r _ _ _ Hit), <- app_assoc. done.
Qed.

Lemma add_new_clients_over_spec order : ∀ s,
  add_new_clients_over order s
  = (tt, set_fds (fds s ++ ((λ fd, Pollfd fd POLLIN 0) <$> order)) s, []).
Proof.
  induction order as [|x order IH]; intros s; cbn [add_new_clients_over].
  - unfold ret. cbn. rewrite app_nil_r. by destruct s.
  - unfold bind, assign. cbn [fst snd app]. rewrite IH. cbn.
    unfold set_fds. cbn. by rewrite <- app_assoc.
Qed.

Lemma scan_from_spec env s :
  wp (scan_from env 0) s (λ _ s' t,
    frame s s'
    ∧ new_clients s' = staged_add env (server_fd s) 0 (fds s) ∪ new_clients s
    ∧ remove_clients s' =
        staged_remove env (server_fd s) 0 (fds s) ∪ remove_clients s
    ∧ calls t = scan_calls env (server_fd s) (null_call s) 0 (fds s)).
Proof. unfold wp. rewrite scan_from_list. apply scan_list_spec. Qed.

Lemma close_clients_spec s :
  wp close_clients s (λ _ s' t,
    server_fd s' = server_fd s ∧ port s' = port s
    ∧ null_call s' = null_call s
    ∧ new_clients s' = new_clients s ∧ remove_clients s' = remove_clients s
    ∧ fds s' = filter (λ e, fd e ∉ remove_clients s) (fds s)
    ∧ calls t = flat_map (λ e, OnDisconnect (fd e) :: null_call s)
                  (filter (λ e, fd e ∈ remove_clients s) (fds s))).
Proof.
  unfold wp, close_clients. rewrite close_from_list.
  by apply (close_list_spec (drop 0 (fds s)) 0 s).
Qed.

Lemma add_new_clients_spec s :
  wp add_new_clients s (λ _ s' t,
    s' = set_fds (fds s ++ ((λ fd, Pollfd fd POLLIN 0) <$> elements (new_clients s))) s
    ∧ t = []).
Proof.
  unfold add_new_clients. apply wp_bind, wp_this. unfold wp.
  by rewrite add_new_clients_over_spec.
Qed.

(** One iteration of [run] after [poll]: the staging sets, the registry and
    the calls through [pHandler] in closed form. *)
Lemma pass_spec env s :
  wp (pass env) s (λ _ s' t,
    let A := staged_add env (server_fd s) 0 (fds s) in
    let R := staged_remove env (server_fd s) 0 (fds s) in
    server_fd s' = server_fd s ∧ port s' = port s
    ∧ null_call s' = null_call s
    ∧ new_clients s' = A ∧ remove_clients s' = R
    ∧ fds s' = filter (λ e, fd e ∉ R) (fds s)
               ++ ((λ fd, Pollfd fd POLLIN 0) <$> elements A)
    ∧ calls t = scan_calls env (server_fd s) (null_call s) 0 (fds s)
                ++ flat_map (λ e, OnDisconnect (fd e) :: null_call s)
                     (filter (λ e, fd e ∈ R) (fds s))).
Proof.
  unfold pass. apply wp_bind, wp_assign, wp_bind, wp_assign, wp_bind.
  eapply wp_mono; [apply scan_from_spec|].
  intros _ s1 t1 ((Hsfd & Hport & Hfds & Hnc) & Hnew & Hrm & Ht1).
  cbn in Hsfd, Hport, Hfds, Hnc, Hnew, Hrm, Ht1.
  rewrite (right_id_L ∅ (∪)) in Hnew, Hrm.
  apply wp_bind. eapply wp_mono; [apply close_clients_spec|].
  intros _ s2 t2 (Hsfd2 & Hport2 & Hnc2 & Hnew2 & Hrm2 & Hfds2 & Ht2).
  eapply wp_mono; [apply add_new_clients_spec|].
  intros _ s3 t3 (-> & ->).
  change (null_call (set_new_clients ∅ (set_remove_clients ∅ s)))
    with (null_call s) in *.
  split_and!.
  - change (server_fd s2 = server_fd s). by rewrite Hsfd2.
  - change (port s2 = port s). by rewrite Hport2.
  - change (null_call s2 = null_call s). by rewrite Hnc2.
  - change (new_clients s2 = staged_add env (server_fd s) 0 (fds s)).
    by rewrite Hnew2.
  - change (remove_clients s2 = staged_remove env (server_fd s) 0 (fds s)).
    by rewrite Hrm2.
  - cbn [fds set_fds]. by rewrite Hfds2, Hnew2, Hrm, Hfds, Hnew.
  - calls_simpl. by rewrite Ht1, Ht2, Hnc, Hrm, Hfds.
Qed.

(** *** What the calls of an iteration can be *)

Lemma elem_of_null_call e s : e ∈ null_call s → e = NullHandlerCall.
Proof.
  unfold null_call. destruct (pHandler s); [by intros ?%elem_of_nil|].
  by intros ->%list_elem_of_singleton.
Qed.

Lemma elem_of_entry_calls env sfd nc i pfd e :
  e ∈ entry_calls env sfd nc i pfd →
  (e = OnConnect (accept_ret env i) ∧ accepts env i pfd sfd = true)
  ∨ (e = OnData (fd pfd) (recv_ret env i).2 (recv_ret env i).1
     ∧ reads env i pfd sfd = true)
  ∨ e ∈ nc.
Proof.
  unfold entry_calls.
  destruct (accepts env i pfd sfd); [|destruct (reads env i pfd sfd)];
    rewrite ?elem_of_cons; [naive_solver | naive_solver | by intros ?%elem_of_nil].
Qed.

Lemma elem_of_disconnects (nc : list event) (R : gset Z) (l : list pollfd) e :
  e ∈ flat_map (λ p, OnDisconnect (fd p) :: nc) (filter (λ p, fd p ∈ R) l) →
  (∃ p, p ∈ l ∧ fd p ∈ R ∧ e = OnDisconnect (fd p)) ∨ e ∈ nc.
Proof.
  rewrite list_elem_of_In, in_flat_map.
  intros (p & Hp%list_elem_of_In%list_elem_of_filter & He%list_elem_of_In).
  apply elem_of_cons in He as [-> | He]; [left | by right].
  exists p. naive_solver.
Qed.

Lemma count_event_calls e t :
  is_call e = true → count_event e t = count_event e (calls t).
Proof.
  intros He. unfold count_event, calls. f_equal.
  induction t as [|x t IH]; [done|].
  destruct (decide (x = e)) as [->|Hne].
  - rewrite (filter_cons_True is_call) by (by rewrite He).
    rewrite !(filter_cons_True (λ x, x = e)) by done. by rewrite IH.
  - rewrite (filter_cons_False (λ x, x = e)) by done.
    destruct (is_call x) eqn:Hx.
    + rewrite (filter_cons_True is_call) by (by rewrite Hx).
      by rewrite filter_cons_False.
    + by rewrite (filter_cons_False is_call) by (rewrite Hx; exact id).
Qed.

Lemma count_event_app e t1 t2 :
  count_event e (t1 ++ t2) = (count_event e t1 + count_event e t2)%nat.
Proof. unfold count_event. by rewrite filter_app, length_app. Qed.

Lemma count_event_absent e t : e ∉ t → count_event e t = 0%nat.
Proof.
  intros He. unfold count_event.
  induction t as [|x t IH]; [done|].
  apply not_elem_of_cons in He as [Hne Ht].
  rewrite filter_cons_False by congruence. by apply IH.
Qed.

Lemma count_disconnects (nc : list event) (R : gset Z) (l : list pollfd) f :
  Forall (λ e, e = NullHandlerCall) nc →
  NoDup (fd <$> l) →
  count_event (OnDisconnect f)
    (flat_map (λ p, OnDisconnect (fd p) :: nc) (filter (λ p, fd p ∈ R) l))
  = if decide (f ∈ R ∧ f ∈ fd <$> l) then 1%nat else 0%nat.
Proof.
  intros Hnc. assert (count_event (OnDisconnect f) nc = 0%nat) as Hnc0.
  { apply count_event_absent. intros Hin.
    by apply (proj1 (Forall_forall _ _) Hnc) in Hin. }
  induction l as [|p l IH]; intros Hnd.
  - cbn. case_decide as Hd; [|done]. destruct Hd as [_ Hd].
    by apply elem_of_nil in Hd.
  - rewrite fmap_cons in Hnd. apply NoDup_cons in Hnd as [Hp Hnd].
    specialize (IH Hnd).
    assert (count_event (OnDisconnect f) [OnDisconnect (fd p)]
            = if decide (fd p = f) then 1%nat else 0%nat) as Hone.
    { unfold count_event. rewrite filter_cons, filter_nil.
      destruct (decide (fd p = f)) as [->|Hne].
      - by rewrite decide_True.
      - rewrite decide_False; [done|]. by intros [=]. }
    assert (count_event (OnDisconnect f)
              (flat_map (λ p, OnDisconnect (fd p) :: nc)
                 (filter (λ p, fd p ∈ R) (p :: l)))
            = ((if decide (fd p ∈ R)
                then if decide (fd p = f) then 1 else 0 else 0)
               + (if decide (f ∈ R ∧ f ∈ fd <$> l) then 1 else 0))%nat) as ->.
    { rewrite filter_cons. destruct (decide (fd p ∈ R)); [|by rewrite IH].
      cbn [flat_map].
      change (OnDisconnect (fd p) :: nc) with ([OnDisconnect (fd p)] ++ nc).
      rewrite !count_event_app, Hone, Hnc0, IH. lia. }
    rewrite fmap_cons.
    destruct (decide (fd p ∈ R)) as [HR|HR];
      destruct (decide (fd p = f)) as [Hf|Hf];
      destruct (decide (f ∈ R ∧ f ∈ fd <$> l)) as [[H1 H2]|Hl];
      destruct (decide (f ∈ R ∧ f ∈ fd p :: (fd <$> l))) as [[H3 H4]|Hr];
      subst; try done; rewrite ?elem_of_cons in *; naive_solver.
Qed.

Lemma scan_from_fds env i s : fds (scan_from env i s).1.2 = fds s.
Proof.
  rewrite scan_from_list.
  by destruct (scan_list_spec env (drop i (fds s)) i s) as ((_ & _ & ? & _) & _).
Qed.

Lemma accepts_inv env i pfd sfd :
  accepts env i pfd sfd = true ↔
  has_flag (revents pfd) POLLIN = true ∧ fd pfd = sfd ∧ 0 ≤ accept_ret env i.
Proof.
  unfold accepts, is_listener.
  rewrite !andb_true_iff, bool_decide_eq_true, Z.leb_le. tauto.
Qed.

Lemma drops_inv env i pfd sfd :
  drops env i pfd sfd = true ↔
  has_flag (revents pfd) POLLIN = true ∧ fd pfd ≠ sfd ∧ (recv_ret env i).1 ≤ 0.
Proof.
  unfold drops, is_listener.
  rewrite !andb_true_iff, negb_true_iff, bool_decide_eq_false, Z.leb_le. tauto.
Qed.

Lemma reads_inv env i pfd sfd :
  reads env i pfd sfd = true ↔
  has_flag (revents pfd) POLLIN = true ∧ fd pfd ≠ sfd ∧ 0 < (recv_ret env i).1.
Proof.
  unfold reads, is_listener.
  rewrite !andb_true_iff, !negb_true_iff, bool_decide_eq_false, Z.leb_gt. tauto.
Qed.

(** ** The claims about the server *)

(** C1: deferred activation.  The scan never assigns to [fds].  A descriptor
    staged in [new_clients] by an iteration was returned by [accept] at the
    listening entry during that iteration; if it was not in the registry
    when the iteration began, then no [on_client_data] and no
    [on_client_disconnect] is called for it in that iteration, it is not in
    the registry when the scan ends, and the commit appends it with
    read-interest, so that the next iteration is the first to scan it. *)
Theorem deferred_activation env s new_fd :
  let s0 := set_new_clients ∅ (set_remove_clients ∅ s) in
  new_fd ∈ new_clients (pass env s).1.2 →
  new_fd ∉ fd <$> fds s →
  (∀ i s', fds (scan_from env i s').1.2 = fds s')
  ∧ (∃ j pfd, fds s !! j = Some pfd ∧ has_flag (revents pfd) POLLIN = true
              ∧ fd pfd = server_fd s ∧ accept_ret env j = new_fd ∧ 0 ≤ new_fd)
  ∧ (∀ data len, OnData new_fd data len ∉ (pass env s).2)
  ∧ OnDisconnect new_fd ∉ (pass env s).2
  ∧ new_fd ∉ fd <$> fds (scan_from env 0 s0).1.2
  ∧ Pollfd new_fd POLLIN 0 ∈ fds (pass env s).1.2.
Proof.
  intros s0 Hin Hfresh.
  destruct (pass_spec env s) as (_ & _ & _ & Hnew & _ & Hfds & Hcalls).
  cbn zeta in *. rewrite Hnew in Hin. split_and!.
  - apply scan_from_fds.
  - apply elem_of_staged_add in Hin as (j & pfd & Hj & Ha & ->).
    apply accepts_inv in Ha as (? & ? & ?). by exists j, pfd.
  - intros data len Hd. apply elem_of_calls in Hd; [|done].
    rewrite Hcalls, elem_of_app in Hd. destruct Hd as [Hd|Hd].
    + apply elem_of_scan_calls in Hd as (j & pfd & Hj & Hd).
      apply elem_of_entry_calls in Hd as [[[=] _] | [[[= -> _ _] _] | Hd]].
      * apply Hfresh, list_elem_of_fmap. exists pfd.
        split; [done|]. by eapply list_elem_of_lookup_2.
      * by apply elem_of_null_call in Hd.
    + apply elem_of_disconnects in Hd as [(? & _ & _ & [=]) | Hd].
      by apply elem_of_null_call in Hd.
  - intros Hd. apply elem_of_calls in Hd; [|done].
    rewrite Hcalls, elem_of_app in Hd. destruct Hd as [Hd|Hd].
    + apply elem_of_scan_calls in Hd as (j & pfd & Hj & Hd).
      apply elem_of_entry_calls in Hd as [[[=] _] | [[[=] _] | Hd]].
      by apply elem_of_null_call in Hd.
    + apply elem_of_disconnects in Hd as [(p & Hp & _ & [= ->]) | Hd].
      * apply Hfresh, list_elem_of_fmap. by exists p.
      * by apply elem_of_null_call in Hd.
  - by rewrite scan_from_fds.
  - rewrite Hfds, elem_of_app. right. apply list_elem_of_fmap.
    exists new_fd. split; [done|]. by apply elem_of_elements.
Qed.

(** *** The handler's part in a step *)

Lemma acts_app t1 t2 : acts (t1 ++ t2) = acts t1 ++ acts t2.
Proof. apply filter_app. Qed.

Lemma acts_nil : acts [] = [].
Proof. done. Qed.

Lemma acts_cons e t : acts (e :: t) = (if is_act e then [e] else []) ++ acts t.
Proof. unfold acts. rewrite filter_cons. by destruct (is_act e). Qed.

Lemma acts_fmap_ByHandler (l : list output) :
  acts (ByHandler <$> l) = ByHandler <$> l.
Proof.
  induction l as [|o l IH]; [done|].
  rewrite fmap_cons, acts_cons, IH. done.
Qed.

Ltac acts_simpl :=
  repeat first [rewrite acts_app | rewrite acts_cons | rewrite acts_nil];
  cbn [is_act app]; rewrite ?app_nil_r.

Ltac use_acts :=
  repeat match goal with Hc : acts _ = _ |- _ => rewrite Hc end;
  cbn [app]; rewrite ?app_nil_r; done.

Lemma silent_ret {A} (a : A) : silent (H:=H) (ret a).
Proof. done. Qed.

Lemma silent_emit e : is_act e = false → silent (H:=H) (emit e).
Proof. intros He s. split; [done|]. cbn. acts_simpl. by rewrite He. Qed.

Lemma silent_bind {A B} (m : M A) (k : A → M B) :
  silent (H:=H) m → (∀ a, silent (k a)) → silent (bind m k).
Proof.
  intros Hm Hk s. destruct (Hm s) as [Hs Ht]. unfold bind. cbn.
  rewrite Hs. destruct (Hk (m s).1.1 s) as [Hs' Ht']. split; [done|].
  by rewrite acts_app, Ht, Ht'.
Qed.

Lemma silent_when (b : bool) m : silent (H:=H) m → silent (when b m).
Proof. destruct b; [done | intros _; apply silent_ret]. Qed.

Lemma silent_if {A} (b : bool) (m1 m2 : M A) :
  silent (H:=H) m1 → silent m2 → silent (if b then m1 else m2).
Proof. by destruct b. Qed.

Lemma wp_silent_bind {A B} (m : M A) (k : A → M B) s Q :
  silent m →
  (∀ a, wp (k a) s (λ b s2 t2, ∀ t1, acts t1 = [] → Q b s2 (t1 ++ t2))) →
  wp (bind m k) s Q.
Proof.
  intros Hm Hk. destruct (Hm s) as [Hs Ht]. unfold wp, bind. cbn.
  rewrite Hs. by apply Hk.
Qed.

Lemma wp_bind_silent {A B} (m : M A) (k : A → M B) s Q :
  (∀ a, silent (k a)) →
  wp m s (λ a s1 t1, ∀ b t2, acts t2 = [] → Q b s1 (t1 ++ t2)) →
  wp (bind m k) s Q.
Proof.
  intros Hk Hm. unfold wp, bind. cbn.
  destruct (Hk (m s).1.1 (m s).1.2) as [Hs Ht]. rewrite Hs. by apply Hm.
Qed.

Ltac silent_tac :=
  repeat first
    [ apply silent_when | apply silent_if | apply silent_ret
    | apply silent_emit; reflexivity
    | apply silent_bind; [|intros ?] ].

(** A call through a handler that is there: the handler object becomes
    what the callback returns, and the trace holds the call followed by
    what the callback did. *)
Lemma call_applies_callback e cb s h :
  is_act e = true →
  pHandler s = Some h →
  (call e cb s).1.2 = set_pHandler (Some (cb h).1) s
  ∧ acts (call e cb s).2 = e :: (ByHandler <$> (cb h).2).
Proof.
  intros He Hh. unfold call. rewrite Hh. cbn [fst snd]. split; [done|].
  by rewrite acts_cons, He, acts_fmap_ByHandler.
Qed.

(** The scan of a readable entry that is not the listening one, with the
    whole of the object after it. *)
Lemma dispatch_entry_client env i pfd s :
  has_flag (revents pfd) POLLIN = true →
  fd pfd ≠ server_fd s →
  wp (dispatch_entry env i pfd) s (λ _ s' t,
    if (recv_ret env i).1 <=? 0 then
      s' = set_remove_clients ({[fd pfd]} ∪ remove_clients s) s ∧ acts t = []
    else
      let c := call (OnData (fd pfd) (recv_ret env i).2 (recv_ret env i).1)
                 (on_client_data (fd pfd) (recv_ret env i).2 (recv_ret env i).1)
                 s in
      s' = c.1.2 ∧ acts t = acts c.2).
Proof.
  intros Hin Hl. unfold dispatch_entry.
  do 3 (apply wp_silent_bind; [silent_tac | intros _]).
  apply wp_bind_silent;
    [intros _; unfold handle_existing_client_write; silent_tac|].
  rewrite Hin. apply wp_when, wp_bind, wp_this.
  rewrite decide_False by done.
  apply wp_bind. unfold handle_existing_client_read.
  apply wp_bind, wp_emit, wp_if.
  destruct ((recv_ret env i).1 <=? 0).
  - apply wp_ret, wp_when. change (-1 <? 0) with true. cbv iota.
    apply wp_assign. intros. split; [done|]. acts_simpl. use_acts.
  - apply wp_bind. unfold wp at 1. apply wp_ret, wp_when.
    change (0 <? 0) with false. cbv iota. intros. split; [done|].
    acts_simpl. use_acts.
Qed.

(** C4: a readable entry that is not the listening one.  When [recv]
    returns zero or less, the descriptor is staged for removal and that is
    the only change to the server: [on_client_data] is not called and the
    handler neither changes nor does anything.  When [recv] returns
    [nb > 0], [on_client_data] is called exactly once, with the buffer of
    that [recv] and [nb]: the handler object becomes what that callback
    returns on them, the handler's part of the trace is that one call
    followed by what the callback did, and nothing else of the server
    changes, the staging set included. *)
Theorem readable_client_dispatch env i pfd s :
  has_flag (revents pfd) POLLIN = true →
  fd pfd ≠ server_fd s →
  let r := dispatch_entry env i pfd s in
  let buffer := (recv_ret env i).2 in
  let nb := (recv_ret env i).1 in
  (nb ≤ 0 →
     fd pfd ∈ remove_clients r.1.2 ∧ filter is_data r.2 = []
     ∧ r.1.2 = set_remove_clients ({[fd pfd]} ∪ remove_clients s) s
     ∧ acts r.2 = [])
  ∧ (0 < nb →
     filter is_data r.2 = [OnData (fd pfd) buffer nb]
     ∧ remove_clients r.1.2 = remove_clients s
     ∧ ∀ h, pHandler s = Some h →
         r.1.2 = set_pHandler (Some (on_client_data (fd pfd) buffer nb h).1) s
         ∧ acts r.2 = OnData (fd pfd) buffer nb
                      :: (ByHandler <$> (on_client_data (fd pfd) buffer nb h).2)).
Proof.
  intros Hin Hl r buffer nb.
  pose proof (dispatch_entry_client env i pfd s Hin Hl) as Hfull.
  unfold wp in Hfull. fold r buffer nb in Hfull.
  destruct (dispatch_entry_spec env i pfd s) as (_ & _ & Hrm & Hcalls).
  fold r in Hrm, Hcalls.
  assert (∀ t, filter is_data t = filter is_data (calls t)) as Hdata.
  { intros t. unfold calls. rewrite list_filter_filter.
    apply list_filter_iff. intros [] ; cbn; tauto. }
  assert (filter is_data (null_call s) = []) as Hnc.
  { unfold null_call. by destruct (pHandler s). }
  unfold entry_calls in Hcalls.
  assert (accepts env i pfd (server_fd s) = false) as Ha.
  { apply not_true_iff_false. by intros (_ & ? & _)%accepts_inv. }
  rewrite Ha in Hcalls. split.
  - intros Hnb.
    assert (drops env i pfd (server_fd s) = true) as Hd by by apply drops_inv.
    assert (reads env i pfd (server_fd s) = false) as Hr.
    { apply not_true_iff_false. intros (_ & _ & ?)%reads_inv. lia. }
    rewrite Hd in Hrm. rewrite Hr in Hcalls. rewrite Hrm, Hdata, Hcalls.
    rewrite (proj2 (Z.leb_le nb 0) Hnb) in Hfull. destruct Hfull as [Hs Ht].
    split_and!; [set_solver | done | done | done].
  - intros Hnb.
    assert (drops env i pfd (server_fd s) = false) as Hd.
    { apply not_true_iff_false. intros (_ & _ & ?)%drops_inv. lia. }
    assert (reads env i pfd (server_fd s) = true) as Hr by by apply reads_inv.
    rewrite Hd in Hrm. rewrite Hr in Hcalls. rewrite Hrm, Hdata, Hcalls.
    rewrite (proj2 (Z.leb_gt nb 0) Hnb) in Hfull. cbn zeta in Hfull.
    destruct Hfull as [Hs Ht].
    split_and!; [|done|].
    + rewrite filter_cons_True by done. by rewrite Hnc.
    + intros h Hh. rewrite Hs, Ht.
      by apply call_applies_callback.
Qed.

(** The disconnect that the code does detect.  With no descriptor twice in
    the registry, an entry that is readable (whatever else its flags report:
    error, hangup, invalid), is not the listening one and whose [recv]
    returns zero or less is staged for removal, and [on_client_disconnect] is
    called for its descriptor exactly once in the iteration; for no
    descriptor is it called more than once. *)
Theorem on_disconnect_exactly_once env s j pfd :
  NoDup (fd <$> fds s) →
  fds s !! j = Some pfd →
  has_flag (revents pfd) POLLIN = true →
  fd pfd ≠ server_fd s →
  (recv_ret env j).1 ≤ 0 →
  fd pfd ∈ remove_clients (pass env s).1.2
  ∧ count_event (OnDisconnect (fd pfd)) (pass env s).2 = 1%nat
  ∧ ∀ f, (count_event (OnDisconnect f) (pass env s).2 ≤ 1)%nat.
Proof.
  intros Hnd Hj Hin Hl Hnb.
  destruct (pass_spec env s) as (_ & _ & _ & _ & Hrm & _ & Hcalls).
  cbn zeta in *.
  assert (∀ f, count_event (OnDisconnect f) (pass env s).2
               = if decide (f ∈ staged_remove env (server_fd s) 0 (fds s)
                            ∧ f ∈ fd <$> fds s) then 1%nat else 0%nat) as Hcount.
  { intros f. rewrite count_event_calls by done.
    rewrite Hcalls, count_event_app.
    rewrite (count_event_absent _ (scan_calls _ _ _ _ _)).
    - apply count_disconnects; [|done].
      apply Forall_forall. intros e. apply elem_of_null_call.
    - intros (k & p & _ & Hd)%elem_of_scan_calls.
      apply elem_of_entry_calls in Hd as [[[=] _] | [[[=] _] | Hd]].
      by apply elem_of_null_call in Hd. }
  assert (fd pfd ∈ staged_remove env (server_fd s) 0 (fds s)) as Hst.
  { apply elem_of_staged_remove. exists j, pfd. split; [done|].
    split; [by apply drops_inv | done]. }
  split_and!.
  - by rewrite Hrm.
  - rewrite Hcount, decide_True; [done|]. split; [done|].
    apply list_elem_of_fmap. exists pfd. split; [done|].
    by eapply list_elem_of_lookup_2.
  - intros f. rewrite Hcount. case_decide; lia.
Qed.

(** C8: the commit.  The registry after [close_clients] and
    [add_new_clients] is the old registry without the entries whose
    descriptor is in [remove_clients], the others unchanged and in their
    order, followed by one new entry with read-interest for each descriptor
    of [new_clients]. *)
Theorem commit_frame s :
  let r := bind close_clients (λ _, add_new_clients) s in
  fds r.1.2
  = filter (λ e, fd e ∉ remove_clients s) (fds s)
    ++ ((λ fd, Pollfd fd POLLIN 0) <$> elements (new_clients s))
  ∧ NoDup (elements (new_clients s))
  ∧ (∀ x, x ∈ elements (new_clients s) ↔ x ∈ new_clients s)
  ∧ new_clients r.1.2 = new_clients s
  ∧ remove_clients r.1.2 = remove_clients s.
Proof.
  intros r. subst r.
  assert (wp (bind close_clients (λ _, add_new_clients)) s (λ _ s' _,
    fds s' = filter (λ e, fd e ∉ remove_clients s) (fds s)
             ++ ((λ fd, Pollfd fd POLLIN 0) <$> elements (new_clients s))
    ∧ new_clients s' = new_clients s
    ∧ remove_clients s' = remove_clients s)) as (Hfds & Hnew & Hrm).
  { apply wp_bind. eapply wp_mono; [apply close_clients_spec|].
    intros _ s1 t1 (_ & _ & _ & Hnew & Hrm & Hfds & _).
    eapply wp_mono; [apply add_new_clients_spec|].
    intros _ s2 t2 (-> & _). cbn [fds set_fds].
    rewrite Hfds, Hnew. by split_and!. }
  split_and!; [done | apply NoDup_elements | | done | done].
  intros x. apply elem_of_elements.
Qed.

(** *** [poll], [run] and the constructor *)

Lemma wp_any {A} (m : M A) s : wp m s (λ _ _ _, True).
Proof. done. Qed.

Lemma poll_spec env s :
  wp (poll env) s (λ v s' t,
    v = poll_ret env
    ∧ server_fd s' = server_fd s ∧ port s' = port s
    ∧ null_call s' = null_call s
    ∧ fds s' = (if 0 <=? poll_ret env
                then imap (λ i p, Pollfd (fd p) (events p) (poll_revents env i))
                       (fds s)
                else fds s)
    ∧ t = [SysPoll (length (fds s)) (poll_ret env)]).
Proof.
  unfold poll. apply wp_bind, wp_this, wp_bind, wp_emit, wp_bind, wp_when.
  destruct (0 <=? poll_ret env); [apply wp_assign|]; by apply wp_ret.
Qed.

Lemma null_call_nil s : null_call s = [] ↔ pHandler s ≠ None.
Proof. unfold null_call. by destruct (pHandler s). Qed.

Lemma pass_no_null_call env s :
  null_call s = [] →
  wp (pass env) s (λ _ s' t, null_call s' = [] ∧ NullHandlerCall ∉ t).
Proof.
  intros Hnc. unfold wp.
  destruct (pass_spec env s) as (_ & _ & Hnc' & _ & _ & _ & Hcalls).
  cbn zeta in *. split; [congruence|].
  intros Hd. apply elem_of_calls in Hd; [|done].
  rewrite Hcalls, Hnc, elem_of_app in Hd. destruct Hd as [Hd|Hd].
  - apply elem_of_scan_calls in Hd as (j & pfd & Hj & Hd).
    apply elem_of_entry_calls in Hd as [[[=] _] | [[[=] _] | Hd]].
    by apply elem_of_nil in Hd.
  - apply elem_of_disconnects in Hd as [(? & _ & _ & [=]) | Hd].
    by apply elem_of_nil in Hd.
Qed.

Lemma run_no_null_call script : ∀ s,
  null_call s = [] →
  wp (run script) s (λ _ s' t, null_call s' = [] ∧ NullHandlerCall ∉ t).
Proof.
  induction script as [|env script IH]; intros s Hnc; cbn [run].
  - apply wp_ret. split; [done | by intros ?%elem_of_nil].
  - apply wp_bind. eapply wp_mono; [apply poll_spec|].
    intros v s1 t1 (-> & _ & _ & Hnc1 & _ & ->). rewrite Hnc in Hnc1.
    destruct (poll_ret env <? 0).
    + apply wp_bind, wp_emit, wp_bind, wp_this, wp_bind, wp_emit, wp_ret.
      split; [done|]. cbn. rewrite !elem_of_cons.
      intros [[=]|[[=]|[[=]|[]%elem_of_nil]]].
    + apply wp_bind.
      eapply wp_mono; [by apply pass_no_null_call|].
      intros _ s2 t2 [Hnc2 Hp].
      eapply wp_mono; [by apply IH|]. intros _ s3 t3 [Hnc3 Hr].
      split; [done|].
      rewrite !elem_of_app, list_elem_of_singleton. intros [[=]|[?|?]]; done.
Qed.

(** [run] returns when [poll] fails. *)
Lemma run_returns script env rest : ∀ s,
  Forall (λ e, 0 ≤ poll_ret e) script →
  poll_ret env < 0 →
  wp (run (script ++ env :: rest)) s (λ v _ _, v = Returned).
Proof.
  induction script as [|e script IH]; intros s Hok Hfail; cbn [run app].
  - apply wp_bind. eapply wp_mono; [apply poll_spec|].
    intros v s1 t1 (-> & _). rewrite (proj2 (Z.ltb_lt _ _) Hfail).
    by apply wp_bind, wp_emit, wp_bind, wp_this, wp_bind, wp_emit, wp_ret.
  - apply Forall_cons in Hok as [He Hok].
    apply wp_bind. eapply wp_mono; [apply poll_spec|].
    intros v s1 t1 (-> & _). rewrite (proj2 (Z.ltb_ge _ _) He).
    apply wp_bind. eapply wp_mono; [apply wp_any|]. intros _ s2 _ _.
    by apply IH.
Qed.

Lemma no_poll_in_setup (senv : SetupEnv) s n r :
  SysPoll n r ∉ (setup_socket senv s).2.
Proof.
  unfold setup_socket, bind, emit, assign, this, ret. cbn.
  repeat case_match; cbn; rewrite ?elem_of_cons; intros Hd;
    repeat (destruct Hd as [[=]|Hd]); by apply elem_of_nil in Hd.
Qed.

Lemma setup_socket_result (senv : SetupEnv) s :
  (setup_socket senv s).1.1 = None ↔
  0 ≤ socket_ret senv ∧ 0 ≤ bind_ret senv ∧ 0 ≤ listen_ret senv.
Proof.
  unfold setup_socket, bind, emit, assign, this, ret. cbn.
  destruct (Z.ltb_spec (socket_ret senv) 0); cbn; [split; [done|lia]|].
  destruct (Z.ltb_spec (bind_ret senv) 0); cbn; [split; [done|lia]|].
  destruct (Z.ltb_spec (listen_ret senv) 0); cbn; [split; [done|lia]|].
  done.
Qed.

Lemma setup_socket_handler (senv : SetupEnv) s :
  pHandler (setup_socket senv s).1.2 = pHandler s.
Proof.
  unfold setup_socket, bind, emit, assign, this, ret. cbn.
  by repeat case_match.
Qed.

(** C9: the constructor given a null handler throws before any system call,
    whatever the port; a constructed server holds the handler it was given,
    which is not null, and no run of it ever calls through a null handler
    pointer. *)
Theorem null_handler_rejected (senv : SetupEnv) port :
  TcpServer_ctor (H:=H) senv port None
  = (inl (runtime_error "client handle can not be null"), [])
  ∧ (∀ p_handler s t,
       TcpServer_ctor senv port p_handler = (inr s, t) →
       p_handler ≠ None ∧ pHandler s = p_handler
       ∧ ∀ script,
           NullHandlerCall ∉ (run script s).2
           ∧ pHandler (run script s).1.2 ≠ None).
Proof.
  split; [done|]. intros p_handler s t Hctor. unfold TcpServer_ctor in Hctor.
  destruct p_handler as [h|]; [|done].
  destruct (setup_socket senv _).1.1 eqn:Hres; [done|].
  injection Hctor as <- <-.
  assert (pHandler (setup_socket senv (Server (-1) port (Some h) [] ∅ ∅)).1.2
          = Some h) as Hh by apply setup_socket_handler.
  split_and!; [done | done |]. intros script.
  destruct (run_no_null_call script
              (setup_socket senv (Server (-1) port (Some h) [] ∅ ∅)).1.2)
    as [Hnc Hno]; [apply null_call_nil; by rewrite Hh|].
  split; [done | by apply null_call_nil].
Qed.

End ServerFacts.

(** ** [main] *)

(** C3 as stated fails: with the socket set up and [poll] failing at once,
    [run] returns and [main] ends with [return 0]. *)
Lemma poll_failure_exit_status_is_zero :
  let senv := Build_SetupEnv 3 0 0 in
  let env := Build_PassEnv (-1) (λ _, 0) (λ _, (0, 0)) (λ _, -1)
               (λ _, (0, EmptyString)) in
  poll_ret env < 0
  ∧ ¬ (∃ code, (main senv [env]).1 = Some code ∧ code ≠ 0).
Proof.
  split; [done|]. intros (code & Hcode & Hnz).
  vm_compute in Hcode. by injection Hcode as <-.
Qed.

(** C3, amended: when [poll] returns an error the loop ends, [run] returns
    and the process exits with status 0; when [socket], [bind] or [listen]
    fails, the process exits with [EXIT_FAILURE] and [poll] is never
    called. *)
Theorem main_exit_status (senv : SetupEnv) :
  (0 ≤ socket_ret senv → 0 ≤ bind_ret senv → 0 ≤ listen_ret senv →
   ∀ script env rest,
     Forall (λ e, 0 ≤ poll_ret e) script →
     poll_ret env < 0 →
     (main senv (script ++ env :: rest)).1 = Some 0)
  ∧ (socket_ret senv < 0 ∨ bind_ret senv < 0 ∨ listen_ret senv < 0 →
     ∀ script,
       (main senv script).1 = Some EXIT_FAILURE
       ∧ ∀ n r, SysPoll n r ∉ (main senv script).2).
Proof.
  pose proof (setup_socket_result senv
    (Server (-1) 9000 (Some BroadCastChatHandler.make) [] ∅ ∅)) as Hres.
  split.
  - intros Hs Hb Hl script env rest Hok Hfail.
    unfold main, TcpServer_ctor.
    rewrite (proj2 Hres) by done.
    pose proof (run_returns script env rest
      (setup_socket senv
         (Server (-1) 9000 (Some BroadCastChatHandler.make) [] ∅ ∅)).1.2
      Hok Hfail) as Hrun.
    unfold wp in Hrun. by rewrite Hrun.
  - intros Hfail script. unfold main, TcpServer_ctor.
    destruct (setup_socket senv _).1.1 as [[what]|] eqn:Hexn.
    + split; [done|]. intros n r. cbn [snd]. rewrite elem_of_app.
      intros [Hin | [=]%list_elem_of_singleton].
      by apply no_poll_in_setup in Hin.
    + pose proof (proj1 Hres eq_refl). lia.
Qed.

Lemma main_exit_status_witness :
  let env_ok := Build_PassEnv 1 (λ _, 0) (λ _, (0, 0)) (λ _, -1)
                  (λ _, (0, EmptyString)) in
  let env_fail := Build_PassEnv (-1) (λ _, 0) (λ _, (0, 0)) (λ _, -1)
                    (λ _, (0, EmptyString)) in
  (main (Build_SetupEnv 3 0 0) ([env_ok] ++ env_fail :: [])).1 = Some 0
  ∧ (main (Build_SetupEnv 3 (-1) 0) [env_ok]).1 = Some EXIT_FAILURE.
Proof.
  intros env_ok env_fail. split.
  - apply (proj1 (main_exit_status (Build_SetupEnv 3 0 0))); cbn; try lia.
    + repeat constructor. cbn. lia.
  - apply (proj2 (main_exit_status (Build_SetupEnv 3 (-1) 0))). cbn. lia.
Defined.

(** ** The hangup flag *)

(** C2 fails on the code: [POLLHUP] is reported and nothing else.  With the
    listening descriptor 3 and a client 5 whose flags are [POLLHUP] alone,
    the iteration stages nothing, calls no handler and leaves 5 in the
    registry; with [POLLHUP] and [POLLIN] and a [recv] of two bytes, the data
    is delivered and 5 stays as well. *)
Lemma hangup_alone_is_not_removed :
  let s := Server 3 9000 (Some tt)
             [Pollfd 3 POLLIN 0; Pollfd 5 POLLIN POLLHUP] ∅ ∅ in
  let s' := Server 3 9000 (Some tt)
              [Pollfd 3 POLLIN 0; Pollfd 5 POLLIN (Z.lor POLLHUP POLLIN)] ∅ ∅ in
  let env := Build_PassEnv 1 (λ _, 0) (λ _, (0, 0)) (λ _, -1)
               (λ _, (2, "hi")) in
  (has_flag (revents (Pollfd 5 POLLIN POLLHUP)) POLLHUP = true
   ∧ remove_clients (pass env s).1.2 = ∅
   ∧ fds (pass env s).1.2 = fds s
   ∧ calls (pass env s).2 = [])
  ∧ (has_flag (Z.lor POLLHUP POLLIN) POLLHUP = true
     ∧ remove_clients (pass env s').1.2 = ∅
     ∧ fds (pass env s').1.2 = fds s'
     ∧ calls (pass env s').2 = [OnData 5 "hi" 2]).
Proof. by vm_compute. Qed.


(** ** The theorems at concrete iterations *)

Lemma deferred_activation_witness :
  let s := Server 3 9000 (Some tt) [Pollfd 3 POLLIN POLLIN] ∅ ∅ in
  let env := Build_PassEnv 1 (λ _, POLLIN) (λ _, (0, 0)) (λ _, 5)
               (λ _, (0, EmptyString)) in
  OnDisconnect 5 ∉ (pass env s).2
  ∧ Pollfd 5 POLLIN 0 ∈ fds (pass env s).1.2.
Proof.
  intros s env.
  assert (5 ∈ new_clients (pass env s).1.2) as Hin.
  { apply (bool_decide_unpack _). by vm_compute. }
  assert (5 ∉ fd <$> fds s) as Hfresh.
  { apply (bool_decide_unpack _). by vm_compute. }
  destruct (deferred_activation env s 5 Hin Hfresh) as (_ & _ & _ & Hd & _ & Hadd).
  by split.
Defined.

Lemma readable_client_dispatch_witness :
  let s := Server 3 9000 (Some tt)
             [Pollfd 3 POLLIN 0; Pollfd 5 POLLIN POLLIN] ∅ ∅ in
  let env := Build_PassEnv 1 (λ _, POLLIN) (λ _, (0, 0)) (λ _, -1)
               (λ _, (2, "hi")) in
  filter is_data (dispatch_entry env 1 (Pollfd 5 POLLIN POLLIN) s).2
  = [OnData 5 "hi" 2]
  ∧ acts (dispatch_entry env 1 (Pollfd 5 POLLIN POLLIN) s).2
    = [OnData 5 "hi" 2; ByHandler (Print "Client 5: hi");
       ByHandler (Send 5 "hi")].
Proof.
  intros s env.
  assert (has_flag (revents (Pollfd 5 POLLIN POLLIN)) POLLIN = true) as Hin
    by reflexivity.
  assert (fd (Pollfd 5 POLLIN POLLIN) ≠ server_fd s) as Hl by (cbn; lia).
  destruct (readable_client_dispatch env 1 _ s Hin Hl) as [_ Hpos].
  destruct Hpos as (Hdata & _ & Hh); [cbn; lia|].
  destruct (Hh tt eq_refl) as [_ Hacts].
  split; [exact Hdata | exact Hacts].
Defined.

Lemma on_disconnect_exactly_once_witness :
  let flags := Z.lor POLLIN (Z.lor POLLHUP POLLERR) in
  let s := Server 3 9000 (Some tt)
             [Pollfd 3 POLLIN 0; Pollfd 5 POLLIN flags] ∅ ∅ in
  let env := Build_PassEnv 1 (λ _, 0) (λ _, (0, 104)) (λ _, -1)
               (λ _, (0, EmptyString)) in
  count_event (OnDisconnect 5) (pass env s).2 = 1%nat.
Proof.
  intros flags s env.
  assert (NoDup (fd <$> fds s)) as Hnd.
  { apply (bool_decide_unpack _). by vm_compute. }
  assert (fds s !! 1%nat = Some (Pollfd 5 POLLIN flags)) as Hj by reflexivity.
  assert (has_flag (revents (Pollfd 5 POLLIN flags)) POLLIN = true) as Hin
    by reflexivity.
  assert (fd (Pollfd 5 POLLIN flags) ≠ server_fd s) as Hl by (cbn; lia).
  assert ((recv_ret env 1).1 ≤ 0) as Hnb by (cbn; lia).
  destruct (on_disconnect_exactly_once env s 1 _ Hnd Hj Hin Hl Hnb)
    as (_ & Hone & _).
  exact Hone.
Defined.

Lemma null_handler_rejected_witness :
  let senv := Build_SetupEnv 3 0 0 in
  let env := Build_PassEnv 1 (λ _, POLLIN) (λ _, (0, 0)) (λ _, 5)
               (λ _, (0, EmptyString)) in
  ∃ s t, TcpServer_ctor senv 9000 (Some tt) = (inr s, t)
         ∧ NullHandlerCall ∉ (run [env; env] s).2.
Proof.
  intros senv env.
  destruct (TcpServer_ctor senv 9000 (Some tt)) as [[e|s] t] eqn:Hctor.
  - exfalso. vm_compute in Hctor. discriminate Hctor.
  - exists s, t. split; [reflexivity|].
    destruct (null_handler_rejected (H:=unit) senv 9000) as [_ Hok].
    destruct (Hok (Some tt) s t Hctor) as (_ & _ & Hrun).
    apply (Hrun [env; env]).
Defined.
